(** * Small molecular-dynamics toolchain: a shallow embedding

    Three independent scripts are modelled here:

    - [add_data_with_error_propagation.py], the quadrature combiner;
    - [py_calc_contact_count.py], the contact counter;
    - [py_compute_work.py], the work integrator.

    Every script is a straight-line NumPy program.  The embedding keeps the
    statements of the scripts one by one, over a small model of the NumPy
    and SciPy calls they make (arrays of dimension 0, 1 and 2, slicing,
    broadcasting, [loadtxt], [argmax], [trapz], [find_peaks]) and of the
    Python exceptions those calls raise.  The element type of an array is a
    parameter: the scripts run at [float64], for which the kernel's binary64
    numbers are used; exact rationals are a second instance, used to tell
    what is a property of the algorithm from what is a property of rounding. *)

From Stdlib Require Import ZArith List Sorted Floats QArith Qcanon Lia Ring.
From stdpp Require Import base option list gmap strings.

(** ** Python exceptions and results *)

Inductive exn : Type :=
| FileNotFoundError       (* open() of a missing input *)
| ValueError              (* parse failure, shape mismatch, empty argmax *)
| IndexError              (* too many indices, index out of range *)
| SelectionError          (* MDAnalysis: selection string does not parse *)
| SystemExit (code : nat) (* sys.exit *).

Inductive result (A : Type) : Type :=
| Ok (a : A)
| Raise (e : exn).
Arguments Ok {A} a.
Arguments Raise {A} e.

#[export] Instance result_ret : MRet result := fun _ a => Ok a.
#[export] Instance result_bind : MBind result := fun _ _ k m =>
  match m with
  | Ok a => k a
  | Raise e => Raise e
  end.
#[export] Instance result_fmap : FMap result := fun _ _ f m =>
  match m with
  | Ok a => Ok (f a)
  | Raise e => Raise e
  end.

Definition is_ok {A} (r : result A) : bool :=
  match r with Ok _ => true | Raise _ => false end.

(** ** Element types *)

(** The operations the scripts apply to array elements.  [of_Z] is the value
    of an integer literal ([30], [2.0]) at the element type.  [printf_8f x]
    is the number a text file holds for [x] once ['%16.8f' % x] is written
    to it: [x] rounded to eight decimals, as [np.loadtxt] reads it back. *)
Class Dtype (T : Type) : Type := {
  of_Z : Z -> T;
  add : T -> T -> T;
  sub : T -> T -> T;
  mul : T -> T -> T;
  div : T -> T -> T;
  ltb : T -> T -> bool;
  leb : T -> T -> bool;
  eqb : T -> T -> bool;
  printf_8f : T -> T
}.

(** [np.sqrt] is kept apart: the rationals have none. *)
Class Sqrt (T : Type) : Type := sqrt : T -> T.

Definition float_of_Z (z : Z) : float :=
  match z with
  | Z0 => PrimFloat.zero
  | Zpos _ => PrimFloat.of_uint63 (Uint63.of_Z z)
  | Zneg p => PrimFloat.opp (PrimFloat.of_uint63 (Uint63.of_Z (Zpos p)))
  end.

(** The quotient [num / den] of a natural number by a positive one, rounded
    to the nearest integer, ties to even: the rounding of C's [printf]. *)
Definition round_half_even (num : Z) (den : positive) : Z :=
  let q := (num / Zpos den)%Z in
  let r := (num mod Zpos den)%Z in
  match (2 * r ?= Zpos den)%Z with
  | Lt => q
  | Gt => (q + 1)%Z
  | Eq => if Z.even q then q else (q + 1)%Z
  end.

(** ['%16.8f' % x] at binary64, read back.  A finite [x] is [m * 2^e]
    exactly; [n] is the integer [x * 10^8] rounded, so that the text is the
    decimal expansion of [n / 10^8], and reading it gives the binary64
    number nearest to that quotient.  A value that rounds to zero keeps its
    sign ([-0.00000000]); [inf] and [nan] are printed and read as such. *)
Definition float_printf_8f (x : float) : float :=
  match Prim2SF x with
  | S754_finite s m e =>
      let n := match e with
               | Zneg p => round_half_even (Zpos m * 10 ^ 8) (2 ^ p)
               | _ => (Zpos m * 2 ^ e * 10 ^ 8)%Z
               end in
      match n with
      | Zpos n' =>
          SF2Prim (SF64div (S754_finite s n' 0) (S754_finite false (10 ^ 8) 0))
      | _ => if s then PrimFloat.neg_zero else PrimFloat.zero
      end
  | _ => x
  end.

(** The same rounding on an exact rational. *)
Definition Qc_printf_8f (x : Qc) : Qc :=
  let n := round_half_even (Z.abs (Qnum x) * 10 ^ 8) (Qden x) in
  Q2Qc ((Z.sgn (Qnum x) * n) # (10 ^ 8)).

(** IEEE 754 binary64, the dtype [np.loadtxt] returns. *)
#[export] Instance float64 : Dtype float := {|
  of_Z := float_of_Z;
  add := PrimFloat.add;
  sub := PrimFloat.sub;
  mul := PrimFloat.mul;
  div := PrimFloat.div;
  ltb := PrimFloat.ltb;
  leb := PrimFloat.leb;
  eqb := PrimFloat.eqb;
  printf_8f := float_printf_8f
|}.

#[export] Instance float64_sqrt : Sqrt float := PrimFloat.sqrt.

(** Exact rational arithmetic. *)
#[export] Instance exact : Dtype Qc := {|
  of_Z := fun z => Q2Qc (inject_Z z);
  add := Qcplus;
  sub := Qcminus;
  mul := Qcmult;
  div := Qcdiv;
  ltb := fun x y => match Qccompare x y with Lt => true | _ => false end;
  leb := fun x y => match Qccompare x y with Gt => false | _ => true end;
  eqb := fun x y => match Qccompare x y with Eq => true | _ => false end;
  printf_8f := Qc_printf_8f
|}.

(** An element type computes without rounding when its operations form a
    commutative ring in which halving a doubled value gives the value back. *)
Class ExactArith (T : Type) `{Dtype T} : Prop := {
  exact_ring :
    ring_theory (of_Z 0) (of_Z 1) add mul sub (fun x => sub (of_Z 0) x) (@eq T);
  exact_half : forall a : T, div (add a a) (of_Z 2) = a
}.

(** The comparisons of an element type are those of an order when [ltb] is
    asymmetric and [eqb] relates only values that compare alike.  ([eqb]
    need not be reflexive: a NaN equals nothing.) *)
Class OrderLaws (T : Type) `{Dtype T} : Prop := {
  ltb_asym : forall a b : T, ltb a b = true -> ltb b a = false;
  eqb_not_ltb : forall a b : T, eqb a b = true -> ltb a b = false;
  ltb_eqb_r : forall a b c : T, eqb b c = true -> ltb a b = ltb a c
}.

(** ** NumPy arrays *)

Section Numpy.
Context {T : Type} `{Dtype T}.

(** Arrays of the three dimensions the scripts can meet.  A 2-D array is
    the list of its rows; NumPy keeps all rows at one length. *)
Inductive ndarray : Type :=
| Arr0 (x : T)
| Arr1 (v : list T)
| Arr2 (rows : list (list T)).

(** The numeric content of a text file, comment lines ([@], [#]) and blank
    lines left out, or a file [np.loadtxt] cannot parse. *)
Inductive file : Type :=
| Text (rows : list (list T))
| Unparsable.

Definition rectangular (rows : list (list T)) : bool :=
  match rows with
  | [] => true
  | r :: rs => forallb (fun r' => Nat.eqb (length r') (length r)) rs
  end.

(** [np.loadtxt] runs with [ndmin=0]: axes of length one are squeezed. *)
Definition squeeze (rows : list (list T)) : ndarray :=
  match rows with
  | [] => Arr1 []
  | [[x]] => Arr0 x
  | [r] => Arr1 r
  | _ => if forallb (fun r => Nat.eqb (length r) 1) rows
         then Arr1 (concat rows) else Arr2 rows
  end.

Definition parse (f : file) : result ndarray :=
  match f with
  | Unparsable => Raise ValueError
  | Text rows => if rectangular rows then Ok (squeeze rows) else Raise ValueError
  end.

(** [a[:, j]] *)
Fixpoint column (j : nat) (rows : list (list T)) : result (list T) :=
  match rows with
  | [] => Ok []
  | r :: rs =>
      match r !! j with
      | Some x => c ← column j rs; Ok (x :: c)
      | None => Raise IndexError
      end
  end.

Definition col (j : nat) (a : ndarray) : result (list T) :=
  match a with
  | Arr2 rows => column j rows
  | _ => Raise IndexError
  end.

(** [a[:k, j]] *)
Definition slice_col (k j : nat) (a : ndarray) : result (list T) :=
  c ← col j a; Ok (take k c).

(** Broadcasting of two 1-D operands. *)
Definition broadcast2 (f : T -> T -> T) (a b : list T) : result (list T) :=
  if Nat.eqb (length a) (length b) then Ok (zip_with f a b)
  else match a, b with
       | [x], _ => Ok (map (f x) b)
       | _, [y] => Ok (map (fun x => f x y) a)
       | _, _ => Raise ValueError
       end.

(** Broadcasting of a value assigned to (or added in place into) a slice
    of [n] elements: the target keeps its shape. *)
Definition broadcast_to (n : nat) (v : list T) : result (list T) :=
  if Nat.eqb (length v) n then Ok v
  else match v with
       | [x] => Ok (replicate n x)
       | _ => Raise ValueError
       end.

(** [a[:, j] = v], in place. *)
Definition set_col (j : nat) (v : list T) (a : ndarray) : result ndarray :=
  match a with
  | Arr2 rows =>
      _ ← column j rows;
      v' ← broadcast_to (length rows) v;
      Ok (Arr2 (zip_with (fun r x => <[j:=x]> r) rows v'))
  | _ => Raise IndexError
  end.

(** C-order flattening, as [np.argmax] without an axis sees the array. *)
Definition ravel (a : ndarray) : list T :=
  match a with
  | Arr0 x => [x]
  | Arr1 v => v
  | Arr2 rows => concat rows
  end.

Definition isnan (x : T) : bool := negb (eqb x x).

(** The scan of [DOUBLE_argmax]: [mp] is the running maximum, [max_ind] its
    index, [i] the index of the head of [l]. *)
Fixpoint argmax_loop (mp : T) (max_ind i : nat) (l : list T) : nat :=
  match l with
  | [] => max_ind
  | x :: l' =>
      if negb (leb x mp) then
        if isnan x then i else argmax_loop x i (S i) l'
      else argmax_loop mp max_ind (S i) l'
  end.

Definition argmax_list (l : list T) : result nat :=
  match l with
  | [] => Raise ValueError
  | x :: l' => Ok (if isnan x then 0 else argmax_loop x 0 1 l')
  end.

(** [np.argmax(a)] *)
Definition argmax (a : ndarray) : result nat := argmax_list (ravel a).

(** [np.diff(x)] on a 1-D array: [x[1:] - x[:-1]]. *)
Definition diff (x : list T) : list T := zip_with sub (drop 1 x) x.

(** The unrolled loop of NumPy's [pairwise_sum]: eight running sums [r],
    started at the first eight terms, each taking one term of every further
    block of eight. *)
Fixpoint accumulate_blocks (blocks : nat) (r a : list T) : list T * list T :=
  match blocks with
  | O => (r, a)
  | S b => accumulate_blocks b (zip_with add r (take 8 a)) (drop 8 a)
  end.

(** [pairwise_sum] on 8 to 128 terms: the eight running sums are added as
    [((r0 + r1) + (r2 + r3)) + ((r4 + r5) + (r6 + r7))], then the terms past
    the last whole block one by one. *)
Definition unrolled_sum (a : list T) : T :=
  let n := length a in
  let '(r, rest) :=
    accumulate_blocks ((n - n mod 8) / 8 - 1) (take 8 a) (drop 8 a) in
  match r with
  | [r0; r1; r2; r3; r4; r5; r6; r7] =>
      fold_left add rest
        (add (add (add r0 r1) (add r2 r3)) (add (add r4 r5) (add r6 r7)))
  | _ => of_Z 0
  end.

(** [pairwise_sum]: fewer than eight terms are added one by one; more than
    128 are split at a multiple of eight near the middle, and the sums of
    the two parts added.  [fuel] bounds the depth of the splitting. *)
Fixpoint pairwise_sum (fuel : nat) (a : list T) : T :=
  let n := length a in
  if Nat.ltb n 8 then fold_left add a (of_Z 0)
  else if Nat.leb n 128 then unrolled_sum a
  else match fuel with
       | O => of_Z 0
       | S fuel' =>
           let n2 := n / 2 - (n / 2) mod 8 in
           add (pairwise_sum fuel' (take n2 a))
               (pairwise_sum fuel' (drop n2 a))
       end.

(** [ndarray.sum()] of a 1-D float array, the reduction [np.add.reduce]:
    the value of [pairwise_sum] over the whole array (up to the sign of a
    zero sum). *)
Definition np_sum (l : list T) : T := pairwise_sum (length l) l.

(** [np.trapz(y, x)] on 1-D arrays:
    [(d * (y[1:] + y[:-1]) / 2.0).sum()] with [d = diff(x)]. *)
Definition trapz (y x : list T) : result T :=
  let d := diff x in
  p ← broadcast2 mul d (zip_with add (drop 1 y) y);
  Ok (np_sum (map (fun t => div t (of_Z 2)) p)).

(** The arrays [np.trapz] goes through on operands of equal length:
    [y[1:] + y[:-1]], its product with [d], and that product halved. *)
Definition pair_sums (y : list T) : list T := zip_with add (drop 1 y) y.

Definition products (y x : list T) : list T :=
  zip_with mul (diff x) (pair_sums y).

Definition halves (y x : list T) : list T :=
  map (fun t => div t (of_Z 2)) (products y x).

(** A table with at least [m] columns. *)
Definition width_ge (m : nat) (rows : list (list T)) : Prop :=
  Forall (fun r => m <= length r) rows.

End Numpy.

Arguments ndarray T : clear implicits.
Arguments file T : clear implicits.

(** ** The exact value of a binary64 number *)

(** The rational a finite binary64 number stands for; [inf] and [nan] stand
    for none. *)
Definition float_value (x : float) : option Qc :=
  match Prim2SF x with
  | S754_zero _ => Some (Q2Qc 0)
  | S754_finite s m e =>
      let v := match e with
               | Zneg p => Zpos m # 2 ^ p
               | _ => inject_Z (Zpos m * 2 ^ e)
               end in
      Some (Q2Qc (if s then Qopp v else v))
  | _ => None
  end.

Definition values (l : list float) : option (list Qc) := mapM float_value l.

(** The binary64 numbers [l] are finite and stand for the rationals [q]. *)
Fixpoint same_values (l : list float) (q : list Qc) : bool :=
  match l, q with
  | [], [] => true
  | a :: l', b :: q' =>
      match float_value a with
      | Some v => Qeq_bool v b
      | None => false
      end && same_values l' q'
  | _, _ => false
  end.

(** [np.trapz(y, x)] runs at [float64] without rounding: the forces and the
    positions are finite, and the position differences, the sums of
    neighbouring forces, their products, the halved products and the sum of
    these are finite numbers that stand for what the same operations give
    on the rationals. *)
Definition rounding_free (y x : list float) : bool :=
  match values y, values x with
  | Some qy, Some qx =>
      same_values (diff x) (diff qx)
      && same_values (pair_sums y) (pair_sums qy)
      && same_values (products y x) (products qy qx)
      && same_values (halves y x) (halves qy qx)
      && same_values [np_sum (halves y x)] [np_sum (halves qy qx)]
  | _, _ => false
  end.

(** ** SciPy peak detection *)

Section Scipy.
Context {T : Type} `{Dtype T}.

(** [x[i]], at an index the loops keep in range. *)
Definition get (x : list T) (i : nat) : T := nth i x (of_Z 0).

(** Inner loop of [_local_maxima_1d]: the next sample unequal to [x[i]],
    stopping at the last sample. *)
Fixpoint look_ahead (fuel : nat) (x : list T) (i_max : nat) (xi : T)
    (i_ahead : nat) : nat :=
  match fuel with
  | O => i_ahead
  | S fuel' =>
      if Nat.ltb i_ahead i_max && eqb (get x i_ahead) xi
      then look_ahead fuel' x i_max xi (S i_ahead)
      else i_ahead
  end.

(** Outer loop of [_local_maxima_1d]; every detected maximum is recorded as
    (midpoint, left edge, right edge) of its plateau. *)
Fixpoint local_maxima_loop (fuel : nat) (x : list T) (i_max i : nat)
    : list (nat * nat * nat) :=
  match fuel with
  | O => []
  | S fuel' =>
      if Nat.ltb i i_max then
        if ltb (get x (i - 1)) (get x i) then
          let i_ahead := look_ahead (length x) x i_max (get x i) (i + 1) in
          if ltb (get x i_ahead) (get x i) then
            let left_edge := i in
            let right_edge := i_ahead - 1 in
            ((left_edge + right_edge) / 2, left_edge, right_edge)
              :: local_maxima_loop fuel' x i_max (i_ahead + 1)
          else local_maxima_loop fuel' x i_max (i + 1)
        else local_maxima_loop fuel' x i_max (i + 1)
      else []
  end.

Definition local_maxima_1d (x : list T) : list (nat * nat * nat) :=
  local_maxima_loop (length x) x (length x - 1) 1.

(** One side of [_peak_prominences]: walk away from the peak while the
    samples stay at or below it, keeping the lowest sample met. *)
Fixpoint base_min (xp m : T) (l : list T) : T :=
  match l with
  | [] => m
  | a :: l' =>
      if leb a xp then base_min xp (if ltb a m then a else m) l' else m
  end.

Definition max2 (a b : T) : T := if ltb a b then b else a.

Definition peak_prominence (x : list T) (peak : nat) : T :=
  let xp := get x peak in
  let left_min := base_min xp xp (rev (take (S peak) x)) in
  let right_min := base_min xp xp (drop peak x) in
  sub xp (max2 left_min right_min).

(** [find_peaks(x, prominence=pmin)[0]] *)
Definition find_peaks (x : list T) (pmin : T) : list nat :=
  let peaks := map (fun p => fst (fst p)) (local_maxima_1d x) in
  List.filter (fun p => leb pmin (peak_prominence x p)) peaks.

(** The test a sample passes to be reported by [find_peaks]: it is the
    midpoint of a local maximum, and its prominence reaches [pmin]. *)
Definition is_local_maximum (x : list T) (i : nat) : bool :=
  existsb (Nat.eqb i) (map (fun p => fst (fst p)) (local_maxima_1d x)).

Definition passes_peak_test (x : list T) (pmin : T) (i : nat) : bool :=
  is_local_maximum x i && leb pmin (peak_prominence x i).

(** The local-maximum test as SciPy documents it, without the loop: a peak
    is a sample whose two direct neighbours are smaller; for a flat peak,
    several equal samples wide, it is the middle sample, rounded down.
    [is_plateau x l r]: the samples [l..r] are inside the array, equal, and
    higher than the sample before [l] and the sample after [r]. *)
Definition is_plateau (x : list T) (l r : nat) : bool :=
  Nat.leb 1 l && Nat.leb l r && Nat.ltb (r + 1) (length x)
  && ltb (get x (l - 1)) (get x l)
  && forallb (fun k => eqb (get x k) (get x l)) (seq (l + 1) (r - l))
  && ltb (get x (r + 1)) (get x l).

Definition local_maximum_test (x : list T) (i : nat) : bool :=
  existsb (fun l =>
    existsb (fun r => is_plateau x l r && Nat.eqb i ((l + r) / 2))
      (seq 0 (length x)))
    (seq 0 (length x)).

(** The prominence-based local-maximum test with prominence [pmin]. *)
Definition prominent_peak_test (x : list T) (pmin : T) (i : nat) : bool :=
  local_maximum_test x i && leb pmin (peak_prominence x i).

End Scipy.

(** ** The world of a script: files and standard output *)

Section World.
Context {T : Type} `{Dtype T}.

(** What a script prints: a bare value, a (time, count) record, or the
    usage message. *)
Inductive line : Type :=
| Value (x : T)
| Contact (time : T) (count : nat)
| Usage.

Record world : Type := World {
  files : gmap string (file T);
  stdout : list line
}.

(** A statement runs in a world, leaves a world, and returns or raises. *)
Definition io (A : Type) : Type := world -> result A * world.

#[export] Instance io_ret : MRet io := fun _ a w => (Ok a, w).
#[export] Instance io_bind : MBind io := fun _ _ k m w =>
  match m w with
  | (Ok a, w') => k a w'
  | (Raise e, w') => (Raise e, w')
  end.

Definition lift {A} (r : result A) : io A := fun w => (r, w).

(** [sys.argv[i]] *)
Definition argv_get (argv : list string) (i : nat) : io string :=
  lift (match argv !! i with Some a => Ok a | None => Raise IndexError end).

(** [np.loadtxt(path, comments=['@', '#'])] *)
Definition loadtxt (path : string) : io (ndarray T) := fun w =>
  (match files w !! path with
   | None => Raise FileNotFoundError
   | Some f => parse f
   end, w).

Definition write_text (path : string) (rows : list (list T)) : io unit :=
  fun w => (Ok (), {| files := <[path := Text rows]> (files w); stdout := stdout w |}).

(** [np.savetxt(path, a, fmt='%16.8f')]: the file is opened for writing,
    and so emptied, before the dimension of [a] is looked at.  Every value
    is written with eight decimals, so the file holds [printf_8f] of it. *)
Definition savetxt (path : string) (a : ndarray T) : io unit :=
  match a with
  | Arr0 _ => _ ← write_text path []; lift (Raise ValueError)
  | Arr1 v => write_text path (map (fun x => [printf_8f x]) v)
  | Arr2 rows => write_text path (map (map printf_8f) rows)
  end.

Definition print (l : line) : io unit := fun w =>
  (Ok (), {| files := files w; stdout := stdout w ++ [l] |}).

Fixpoint print_all (ls : list line) : io unit :=
  match ls with
  | [] => mret ()
  | l :: ls' => _ ← print l; print_all ls'
  end.

(** A statement that never touches the files. *)
Definition keeps_files {A} (m : io A) : Prop :=
  forall w, files (snd (m w)) = files w.

(** A statement that never raises. *)
Definition never_raises {A} (m : io A) : Prop :=
  forall w, is_ok (fst (m w)) = true.

(** A statement that leaves the files as they were whenever it raises. *)
Definition atomic {A} (m : io A) : Prop :=
  forall w e w', m w = (Raise e, w') -> files w' = files w.

End World.

Arguments line T : clear implicits.
Arguments world T : clear implicits.
Arguments io T A : clear implicits.

(** ** [add_data_with_error_propagation.py] *)

Module Combiner.
Section Combiner.
Context {T : Type} `{Dtype T} `{Sqrt T}.

(** The two arrays of the script, both mutable. *)
Record vars : Type := Vars {
  data1 : ndarray T;
  data2 : ndarray T
}.

(** [data1[:, 1] += data2[:, 1]] *)
Definition add_second_columns (s : vars) : result vars :=
  c1 ← col 1 (data1 s);
  c2 ← col 1 (data2 s);
  v ← broadcast_to (length c1) c2;
  d ← set_col 1 (zip_with add c1 v) (data1 s);
  Ok {| data1 := d; data2 := data2 s |}.

Definition square (x : T) : T := mul x x.

(** Root-sum-square of two uncertainties, as the script's header gives it. *)
Definition quadrature (u1 u2 : T) : T := sqrt (add (square u1) (square u2)).

(** [data1[:, 2] = np.sqrt(data1[:, 2]**2 + data2[:, 2]**2)] *)
Definition combine_uncertainties (s : vars) : result vars :=
  u1 ← col 2 (data1 s);
  u2 ← col 2 (data2 s);
  q ← broadcast2 add (map square u1) (map square u2);
  d ← set_col 2 (map sqrt q) (data1 s);
  Ok {| data1 := d; data2 := data2 s |}.

(** Lines 36 to 39. *)
Definition combine (s : vars) : result vars :=
  s1 ← add_second_columns s;
  combine_uncertainties s1.

(** The script. *)
Definition main (argv : list string) : io T unit :=
  file1 ← argv_get argv 1;
  file2 ← argv_get argv 2;
  output_file ← argv_get argv 3;
  d1 ← loadtxt file1;
  d2 ← loadtxt file2;
  s ← lift (combine {| data1 := d1; data2 := d2 |});
  savetxt output_file (data1 s).

(** The array the script hands to [savetxt], as a function of the contents
    of its two input files. *)
Definition combine_files (f1 f2 : file T) : result (ndarray T) :=
  d1 ← parse f1;
  d2 ← parse f2;
  s ← combine {| data1 := d1; data2 := d2 |};
  Ok (data1 s).

(** A valid input table: all rows of one length, three columns or more. *)
Definition valid_table (rows : list (list T)) : Prop :=
  rectangular rows = true /\ width_ge 3 rows.

End Combiner.
End Combiner.

(** ** [py_compute_work.py] *)

Module Work.
Section Work.
Context {T : Type} `{Dtype T}.

(** The values the script holds before it integrates. *)
Record vars : Type := Vars {
  peak_indices : list nat;
  max_force_index : nat;
  raw_peak_index : nat;          (* [np.argmax(force_data)] *)
  force_up_to_max : list T;
  gd_force_up_to_max : list T;
  gd_virtual_positions : list T;
  sim_positions : list T
}.

(** Lines 39 and 40: the detected peaks and the first of them. *)
Definition locate_peak (gaussian_denoised_data : ndarray T)
    : result (list nat * nat) :=
  x ← col 1 gaussian_denoised_data;
  let peak_indices := find_peaks x (of_Z 30) in
  match peak_indices !! 0 with
  | Some i => Ok (peak_indices, i)
  | None => Raise IndexError
  end.

(** Lines 39 to 46. *)
Definition extract (gaussian_denoised_data force_data position_data : ndarray T)
    : result vars :=
  p ← locate_peak gaussian_denoised_data;
  let peak_indices := fst p in
  let max_force_index := snd p in
  k ← argmax force_data;
  force_up_to_max ← slice_col k 1 force_data;
  gd_force_up_to_max ← slice_col max_force_index 1 gaussian_denoised_data;
  gd_virtual_positions ← slice_col max_force_index 0 gaussian_denoised_data;
  sim_positions ← slice_col max_force_index 1 position_data;
  Ok {| peak_indices := peak_indices;
        max_force_index := max_force_index;
        raw_peak_index := k;
        force_up_to_max := force_up_to_max;
        gd_force_up_to_max := gd_force_up_to_max;
        gd_virtual_positions := gd_virtual_positions;
        sim_positions := sim_positions |}.

(** Lines 49 and 50. *)
Definition integrate (v : vars) : result (T * T) :=
  work_at_sim_positions ← trapz (force_up_to_max v) (sim_positions v);
  work_at_gd_positions ← trapz (gd_force_up_to_max v) (gd_virtual_positions v);
  Ok (work_at_sim_positions, work_at_gd_positions).

(** The script. *)
Definition main (argv : list string) : io T unit :=
  a1 ← argv_get argv 1;
  gaussian_denoised_data ← loadtxt a1;
  a2 ← argv_get argv 2;
  force_data ← loadtxt a2;
  a3 ← argv_get argv 3;
  position_data ← loadtxt a3;
  v ← lift (extract gaussian_denoised_data force_data position_data);
  w ← lift (integrate v);
  _ ← print (Value (fst w));
  _ ← write_text "work_performed.xvg" [[fst w]];
  write_text "work_performed_gd_positions.xvg" [[snd w]].

End Work.
End Work.

(** ** [py_calc_contact_count.py] *)

Module Contacts.
Section Contacts.
Context {T : Type} `{Dtype T}.

(** MDAnalysis is a collaborator of the script, not part of it: positions,
    boxes, the minimum-image distance, the opening of a universe and the
    resolution of a selection string are parameters. *)
Context {Pos Box : Type}.
Variable distance : Box -> Pos -> Pos -> T.

Record frame : Type := Frame {
  time : T;
  coords : nat -> Pos;      (* position of every atom, by atom index *)
  dimensions : Box
}.

Record universe : Type := Universe {
  trajectory : list frame
}.

Variable open_universe : string -> string -> result universe.
Variable select_atoms : universe -> string -> result (list nat).
Variable parse_float : string -> result T.

(** [group.positions] at the current frame. *)
Definition positions (group : list nat) (ts : frame) : list Pos :=
  map (coords ts) group.

(** [distances.distance_array(reference, configuration, box=box)] *)
Definition distance_array (reference configuration : list Pos) (box : Box)
    : list (list T) :=
  map (fun p => map (fun q => distance box p q) configuration) reference.

(** [np.where(m)[0]]: the row index of every true entry, in C order. *)
Fixpoint where_rows (i : nat) (m : list (list bool)) : list nat :=
  match m with
  | [] => []
  | r :: m' => map (fun _ => i) (List.filter (fun b => b) r) ++ where_rows (S i) m'
  end.

Definition num_group (group1 group2 : list nat) (distance_threshold : T)
    (ts : frame) : nat :=
  length (where_rows 0
    (map (map (fun d => ltb d distance_threshold))
       (distance_array (positions group1 ts) (positions group2 ts) (dimensions ts)))).

(** The body of the loop over frames, lines 62 to 72. *)
Definition loop_body (group1 group2 : list nat) (distance_threshold : T)
    (results : list (T * nat)) (ts : frame) : list (T * nat) :=
  let count_group := 0 in
  let n := num_group group1 group2 distance_threshold ts in
  let count_group := if Nat.ltb 0 n then n else count_group in
  results ++ [(time ts, count_group)].

Definition analyze_vdw_contacts (atom_group1 atom_group2 : string)
    (distance_threshold : T) (topology_file trajectory_file : string)
    : result (list (T * nat)) :=
  univ ← open_universe topology_file trajectory_file;
  group1 ← select_atoms univ atom_group1;
  group2 ← select_atoms univ atom_group2;
  Ok (fold_left (loop_body group1 group2 distance_threshold) (trajectory univ) []).

(** The script. *)
Definition main (argv : list string) : io T unit :=
  if negb (Nat.eqb (length argv) 6) then
    _ ← print Usage; lift (Raise (SystemExit 1))
  else
    atom_group1 ← argv_get argv 1;
    atom_group2 ← argv_get argv 2;
    a3 ← argv_get argv 3;
    distance_threshold ← lift (parse_float a3);
    topology_file ← argv_get argv 4;
    trajectory_file ← argv_get argv 5;
    results ← lift (analyze_vdw_contacts atom_group1 atom_group2
                      distance_threshold topology_file trajectory_file);
    print_all (map (fun r => Contact (fst r) (snd r)) results).

(** The number of entries of a distance matrix strictly below the
    threshold. *)
Definition contacts_below (distance_threshold : T) (m : list (list T)) : nat :=
  length (List.filter (fun d => ltb d distance_threshold) (concat m)).

End Contacts.

Arguments frame T Pos Box : clear implicits.
Arguments universe T Pos Box : clear implicits.

End Contacts.

(** ** Sample inputs, at [float64] *)

Module Scenario.
#[local] Open Scope float_scope.
#[local] Open Scope string_scope.

(** The binary64 numbers nearest to 0.1 and to 0.3. *)
Definition tenth : float := 0x1.999999999999ap-4.
Definition three_tenths : float := 0x1.3333333333333p-2.

(** The binary64 numbers nearest to 0.123456789, to 0.000000001 and to
    0.12345679. *)
Definition nine_decimals : float := 0x1.f9add3739635fp-4.
Definition billionth : float := 0x1.12e0be826d695p-30.
Definition eight_decimals : float := 0x1.f9add3b84e659p-4.

(** Two tables for the combiner, and two one-row tables. *)
Definition A : list (list float) := [[0; 1; 3]; [1; 2; 6]].
Definition B : list (list float) := [[5; 3; 4]; [6; 4; 8]].
Definition A1 : list (list float) := [[0; 1; 3]].
Definition B1 : list (list float) := [[0; 3; 4]].

Definition combiner_argv : list string :=
  ["add_data_with_error_propagation.py"; "a.xvg"; "b.xvg"; "out.xvg"].

Definition two_rows : world float :=
  {| files := {[ "a.xvg" := Text A; "b.xvg" := Text B ]}; stdout := [] |}.

Definition one_row : world float :=
  {| files := {[ "a.xvg" := Text A1; "b.xvg" := Text B1 ]}; stdout := [] |}.

(** The three tables of the work integrator: denoised force against
    position, raw force against time, raw position against time. *)
Definition gd : list (list float) :=
  [[0; 0]; [1; 10]; [2; 40]; [3; 10]; [4; 0]].
Definition force : list (list float) :=
  [[0; 1]; [1; 5]; [2; 3]; [3; 2]; [4; 1]].
Definition position : list (list float) :=
  [[0; 0]; [1; 1]; [2; 2]; [3; 3]; [4; 4]].

(** A denoised force with no peak of prominence 30. *)
Definition flat_gd : list (list float) :=
  [[0; 0]; [1; 10]; [2; 20]; [3; 10]; [4; 0]].

Definition work_argv : list string :=
  ["py_compute_work.py"; "gd.xvg"; "f.xvg"; "x.xvg"].

Definition pull_off : world float :=
  {| files := {[ "gd.xvg" := Text gd; "f.xvg" := Text force;
                 "x.xvg" := Text position ]};
     stdout := [] |}.

Definition no_peak_run : world float :=
  {| files := {[ "gd.xvg" := Text flat_gd; "f.xvg" := Text force;
                 "x.xvg" := Text position ]};
     stdout := [] |}.

(** A universe of two atoms on a line, three apart, over three frames. *)
Definition distance (box : unit) (p q : float) : float :=
  PrimFloat.abs (p - q).

Definition still (t : float) : Contacts.frame float float unit :=
  {| Contacts.time := t;
     Contacts.coords := fun i => match i with O => 0 | _ => 3 end;
     Contacts.dimensions := () |}.

Definition univ : Contacts.universe float float unit :=
  {| Contacts.trajectory := [still 0; still 1; still 2] |}.

Definition open_universe (topology_file trajectory_file : string)
    : result (Contacts.universe float float unit) :=
  if String.eqb topology_file "run.tpr" && String.eqb trajectory_file "run.xtc"
  then Ok univ else Raise FileNotFoundError.

(** ["index 0"] and ["index 1"] select one atom each, ["resname SOL"] is a
    well-formed selection that matches no atom, anything else does not
    parse. *)
Definition select_atoms (u : Contacts.universe float float unit)
    (selection : string) : result (list nat) :=
  if String.eqb selection "index 0" then Ok [0%nat]
  else if String.eqb selection "index 1" then Ok [1%nat]
  else if String.eqb selection "resname SOL" then Ok []
  else Raise SelectionError.

Definition parse_float (a : string) : result float :=
  if String.eqb a "3.5" then Ok 3.5
  else if String.eqb a "2.5" then Ok 2.5
  else Raise ValueError.

Definition contacts_argv (group1 group2 threshold : string) : list string :=
  ["py_calc_contact_count.py"; group1; group2; threshold; "run.tpr"; "run.xtc"].

Definition empty_world : world float := {| files := ∅; stdout := [] |}.

End Scenario.

(** * Properties *)

(** ** Results *)

Lemma bind_Ok {A B} (m : result A) (k : A -> result B) (b : B) :
  m ≫= k = Ok b -> exists a, m = Ok a /\ k a = Ok b.
Proof. destruct m as [a|e]; simpl; [eauto | discriminate]. Qed.

(** Reduce the binds of a result whose head is known. *)
Ltac run := cbn [mbind result_bind mret result_ret fmap result_fmap
                 Combiner.data1 Combiner.data2 col].

Lemma bind_Ok_l {A B} (m : result A) (k : A -> result B) (a : A) :
  m = Ok a -> m ≫= k = k a.
Proof. intros ->. reflexivity. Qed.

(** ** Columns of a 2-D array *)

Section ColumnFacts.
Context {T : Type} `{Dtype T}.

Lemma column_length j (rows : list (list T)) (c : list T) :
  column j rows = Ok c -> length c = length rows.
Proof.
  revert c. induction rows as [|r rs IH]; intros c; simpl.
  - intros [= <-]. reflexivity.
  - destruct (r !! j) as [x|]; [|discriminate].
    destruct (column j rs) as [c'|e]; simpl; [|discriminate].
    intros [= <-]. simpl. f_equal. apply IH. reflexivity.
Qed.

Lemma column_is_Ok j (rows : list (list T)) :
  width_ge (S j) rows -> exists c, column j rows = Ok c.
Proof.
  induction 1 as [|r rs Hr _ [c IH]]; simpl.
  - eauto.
  - destruct (lookup_lt_is_Some_2 r j) as [x ->]; [lia|].
    rewrite IH. simpl. eauto.
Qed.

Lemma column_width j (rows : list (list T)) (c : list T) :
  column j rows = Ok c -> width_ge (S j) rows.
Proof.
  revert c. induction rows as [|r rs IH]; intros c; simpl.
  - constructor.
  - destruct (r !! j) as [x|] eqn:E; [|discriminate].
    destruct (column j rs) as [c'|e] eqn:E'; simpl; [|discriminate].
    intros _. constructor; [|eapply IH; reflexivity].
    apply lookup_lt_Some in E. lia.
Qed.

(** Assigning to column [j] leaves every other column as it was. *)
Lemma column_assign_ne j k (rows : list (list T)) (v : list T) :
  j <> k -> length v = length rows ->
  column k (zip_with (fun r x => <[j:=x]> r) rows v) = column k rows.
Proof.
  intros Hjk. revert v. induction rows as [|r rs IH]; intros [|x v] Hlen;
    simpl in *; try discriminate; [reflexivity|].
  rewrite list_lookup_insert_ne by done.
  rewrite IH by lia. reflexivity.
Qed.

(** Reading back the column just assigned. *)
Lemma column_assign_eq j (rows : list (list T)) (v : list T) :
  width_ge (S j) rows -> length v = length rows ->
  column j (zip_with (fun r x => <[j:=x]> r) rows v) = Ok v.
Proof.
  intros Hw. revert v. induction Hw as [|r rs Hr _ IH]; intros [|x v] Hlen;
    simpl in *; try discriminate; [reflexivity|].
  rewrite list_lookup_insert_eq by lia.
  rewrite IH by lia. reflexivity.
Qed.

Lemma assign_width m j (rows : list (list T)) (v : list T) :
  width_ge m rows -> width_ge m (zip_with (fun r x => <[j:=x]> r) rows v).
Proof.
  intros Hw. revert v. induction Hw as [|r rs Hr _ IH]; intros [|x v]; simpl;
    try constructor; [|apply IH].
  rewrite length_insert. exact Hr.
Qed.

Lemma assign_length j (rows : list (list T)) (v : list T) :
  length v = length rows ->
  length (zip_with (fun r x => <[j:=x]> r) rows v) = length rows.
Proof. intros Hlen. rewrite length_zip_with. lia. Qed.

Lemma broadcast_to_same n (v : list T) :
  length v = n -> broadcast_to n v = Ok v.
Proof. intros <-. unfold broadcast_to. rewrite Nat.eqb_refl. reflexivity. Qed.

Lemma broadcast2_same f (a b : list T) :
  length a = length b -> broadcast2 f a b = Ok (zip_with f a b).
Proof. intros E. unfold broadcast2. rewrite E, Nat.eqb_refl. reflexivity. Qed.

Lemma set_col_Arr2 j (v : list T) (rows : list (list T)) :
  width_ge (S j) rows -> length v = length rows ->
  set_col j v (Arr2 rows) = Ok (Arr2 (zip_with (fun r x => <[j:=x]> r) rows v)).
Proof.
  intros Hw Hlen. unfold set_col.
  destruct (column_is_Ok j rows Hw) as [c ->]. simpl.
  rewrite broadcast_to_same by done. reflexivity.
Qed.

Lemma set_col_shape j (v : list T) (a a' : ndarray T) :
  set_col j v a = Ok a' ->
  exists rows v', a = Arr2 rows /\ length v' = length rows /\
    a' = Arr2 (zip_with (fun r x => <[j:=x]> r) rows v').
Proof.
  destruct a as [x|w|rows]; simpl; try discriminate.
  destruct (column j rows) as [c|e]; simpl; [|discriminate].
  unfold broadcast_to.
  destruct (Nat.eqb (length v) (length rows)) eqn:E.
  - apply Nat.eqb_eq in E. simpl. intros [= <-]. eauto.
  - destruct v as [|x [|y v]]; simpl; try discriminate.
    intros [= <-]. exists rows, (replicate (length rows) x).
    rewrite length_replicate. auto.
Qed.

End ColumnFacts.

(** ** The quadrature combiner *)

Section CombinerFacts.
Context {T : Type} `{Dtype T} `{Sqrt T}.
Import Combiner.

Lemma sqrt_sum_squares (u1 u2 : list T) :
  map sqrt (zip_with add (map square u1) (map square u2))
  = zip_with quadrature u1 u2.
Proof.
  revert u2. induction u1 as [|a u1 IH]; intros [|b u2]; simpl; try reflexivity.
  rewrite IH. reflexivity.
Qed.

(** Two or more rows of two or more columns load as a 2-D array. *)
Lemma squeeze_table (rows : list (list T)) :
  2 <= length rows -> width_ge 2 rows -> squeeze rows = Arr2 rows.
Proof.
  intros Hn Hw. destruct rows as [|r [|r' rs]]; simpl in Hn; try lia.
  inversion Hw as [|? ? Hr _]; subst.
  unfold squeeze.
  replace (forallb (fun r0 => Nat.eqb (length r0) 1) (r :: r' :: rs)) with false.
  - destruct r as [|x [|y r]]; simpl in Hr; try lia; reflexivity.
  - simpl. destruct (Nat.eqb_spec (length r) 1); [lia|reflexivity].
Qed.

(** What lines 36 to 39 compute on two 2-D arrays of three or more columns
    and equally many rows. *)
Lemma combine_tables (A B : list (list T)) :
  width_ge 3 A -> width_ge 3 B -> length A = length B ->
  exists out v1 w1 u1 u2,
    column 1 A = Ok v1 /\ column 1 B = Ok w1 /\
    column 2 A = Ok u1 /\ column 2 B = Ok u2 /\
    combine {| data1 := Arr2 A; data2 := Arr2 B |}
      = Ok {| data1 := Arr2 out; data2 := Arr2 B |} /\
    length out = length A /\
    column 1 out = Ok (zip_with add v1 w1) /\
    column 2 out = Ok (zip_with quadrature u1 u2) /\
    forall j, j <> 1 -> j <> 2 -> column j out = column j A.
Proof.
  intros HA HB Hlen.
  assert (HA1 : width_ge 2 A) by (eapply Forall_impl; [exact HA|simpl; lia]).
  assert (HB1 : width_ge 2 B) by (eapply Forall_impl; [exact HB|simpl; lia]).
  destruct (column_is_Ok 1 A HA1) as [v1 Hv1].
  destruct (column_is_Ok 1 B HB1) as [w1 Hw1].
  destruct (column_is_Ok 2 A HA) as [u1 Hu1].
  destruct (column_is_Ok 2 B HB) as [u2 Hu2].
  pose proof (column_length _ _ _ Hv1) as Lv1.
  pose proof (column_length _ _ _ Hw1) as Lw1.
  pose proof (column_length _ _ _ Hu1) as Lu1.
  pose proof (column_length _ _ _ Hu2) as Lu2.
  set (A1 := zip_with (fun r x => <[1:=x]> r) A (zip_with add v1 w1)).
  set (q := zip_with quadrature u1 u2).
  assert (Lsum : length (zip_with add v1 w1) = length A)
    by (rewrite length_zip_with; lia).
  assert (Lq : length q = length A)
    by (unfold q; rewrite length_zip_with; lia).
  assert (LA1 : length A1 = length A) by (apply assign_length; exact Lsum).
  assert (HA1w : width_ge 3 A1) by (apply assign_width; exact HA).
  assert (Hu1' : column 2 A1 = Ok u1)
    by (unfold A1; rewrite column_assign_ne by (done || lia); exact Hu1).
  exists (zip_with (fun r x => <[2:=x]> r) A1 q), v1, w1, u1, u2.
  repeat split; try assumption.
  - unfold combine, add_second_columns; run.
    rewrite Hv1, Hw1; run.
    rewrite broadcast_to_same by lia; run.
    rewrite (set_col_Arr2 1) by assumption; run.
    unfold combine_uncertainties; run. fold A1.
    rewrite Hu1', Hu2; run.
    rewrite broadcast2_same by (rewrite !length_map; lia); run.
    rewrite sqrt_sum_squares. fold q.
    rewrite (set_col_Arr2 2) by (assumption || (rewrite LA1; exact Lq)).
    reflexivity.
  - rewrite assign_length by (rewrite LA1; exact Lq). exact LA1.
  - rewrite column_assign_ne by (done || (rewrite LA1; exact Lq)).
    unfold A1. apply column_assign_eq; assumption.
  - apply column_assign_eq; [assumption | rewrite LA1; exact Lq].
  - intros j Hj1 Hj2.
    rewrite column_assign_ne by (done || (rewrite LA1; exact Lq)).
    unfold A1. rewrite column_assign_ne by done. reflexivity.
Qed.

End CombinerFacts.

(** ** Statements and the files *)

Section IoFacts.
Context {T : Type} `{Dtype T}.

Lemma keeps_files_atomic {A} (m : io T A) : keeps_files m -> atomic m.
Proof. intros Hm w e w' E. specialize (Hm w). rewrite E in Hm. exact Hm. Qed.

Lemma never_raises_atomic {A} (m : io T A) : never_raises m -> atomic m.
Proof. intros Hm w e w' E. specialize (Hm w). rewrite E in Hm. discriminate. Qed.

Lemma keeps_files_bind {A B} (m : io T A) (k : A -> io T B) :
  keeps_files m -> (forall a, keeps_files (k a)) -> keeps_files (m ≫= k).
Proof.
  intros Hm Hk w. unfold mbind, io_bind. specialize (Hm w).
  destruct (m w) as [[a|e] w1]; simpl in *.
  - rewrite Hk. exact Hm.
  - exact Hm.
Qed.

Lemma atomic_bind {A B} (m : io T A) (k : A -> io T B) :
  keeps_files m -> (forall a, atomic (k a)) -> atomic (m ≫= k).
Proof.
  intros Hm Hk w e w'. unfold mbind, io_bind. specialize (Hm w).
  destruct (m w) as [[a|e1] w1]; simpl in *.
  - intros E. rewrite <- Hm. eapply Hk. exact E.
  - intros [= <- <-]. exact Hm.
Qed.

Lemma never_raises_bind {A B} (m : io T A) (k : A -> io T B) :
  never_raises m -> (forall a, never_raises (k a)) -> never_raises (m ≫= k).
Proof.
  intros Hm Hk w. unfold mbind, io_bind. specialize (Hm w).
  destruct (m w) as [[a|e] w1]; simpl in *; [apply Hk | discriminate].
Qed.

Lemma keeps_files_lift {A} (r : result A) : keeps_files (T:=T) (lift r).
Proof. intros w. reflexivity. Qed.

Lemma keeps_files_argv_get argv i : keeps_files (T:=T) (argv_get argv i).
Proof. intros w. reflexivity. Qed.

Lemma keeps_files_loadtxt path : keeps_files (T:=T) (loadtxt path).
Proof. intros w. reflexivity. Qed.

Lemma keeps_files_print l : keeps_files (T:=T) (print l).
Proof. intros w. reflexivity. Qed.

Lemma keeps_files_print_all ls : keeps_files (T:=T) (print_all ls).
Proof.
  induction ls as [|l ls IH]; simpl.
  - intros w. reflexivity.
  - apply keeps_files_bind; [apply keeps_files_print | intros _; exact IH].
Qed.

Lemma never_raises_write_text path rows : never_raises (T:=T) (write_text path rows).
Proof. intros w. reflexivity. Qed.

Lemma never_raises_print l : never_raises (T:=T) (print l).
Proof. intros w. reflexivity. Qed.

End IoFacts.

Create HintDb io.
#[local] Hint Resolve keeps_files_lift keeps_files_argv_get keeps_files_loadtxt
  keeps_files_print keeps_files_print_all never_raises_write_text
  never_raises_print : io.

Section CombinerFrame.
Context {T : Type} `{Dtype T} `{Sqrt T}.
Import Combiner.

(** Whatever the inputs, a successful run of lines 36 to 39 leaves [data2]
    alone, keeps [data1] a 2-D array of the same number of rows, and
    changes no column of it other than columns 1 and 2. *)
Lemma combine_frame (s s' : vars) :
  combine s = Ok s' ->
  data2 s' = data2 s /\
  exists A out,
    data1 s = Arr2 A /\ data1 s' = Arr2 out /\ length out = length A /\
    forall j, j <> 1 -> j <> 2 -> column j out = column j A.
Proof.
  unfold combine. intros E.
  apply bind_Ok in E as (s1 & E1 & E2).
  unfold add_second_columns in E1.
  apply bind_Ok in E1 as (c1 & _ & E1).
  apply bind_Ok in E1 as (c2 & _ & E1).
  apply bind_Ok in E1 as (v & _ & E1).
  apply bind_Ok in E1 as (d & Hd & E1).
  injection E1 as <-.
  unfold combine_uncertainties in E2. cbn [data1 data2] in E2.
  apply bind_Ok in E2 as (u1 & _ & E2).
  apply bind_Ok in E2 as (u2 & _ & E2).
  apply bind_Ok in E2 as (q & _ & E2).
  apply bind_Ok in E2 as (d' & Hd' & E2).
  injection E2 as <-. cbn [data1 data2].
  split; [reflexivity|].
  apply set_col_shape in Hd as (A & v1 & HA & Lv1 & ->).
  apply set_col_shape in Hd' as (A1 & v2 & HA1 & Lv2 & ->).
  injection HA1 as <-.
  exists A. eexists. split; [exact HA|]. split; [reflexivity|].
  split.
  - rewrite assign_length by exact Lv2. apply assign_length. exact Lv1.
  - intros j Hj1 Hj2.
    rewrite column_assign_ne by (done || exact Lv2).
    rewrite column_assign_ne by (done || exact Lv1). reflexivity.
Qed.

Lemma main_atomic (argv : list string) : atomic (T:=T) (main argv).
Proof.
  unfold main.
  do 5 (apply atomic_bind; [auto with io | intros ?]).
  intros w e w'. unfold mbind, io_bind, lift.
  destruct (combine _) as [s|e'] eqn:E; [|intros [= <- <-]; reflexivity].
  apply combine_frame in E as (_ & A & out & _ & -> & _).
  simpl. discriminate.
Qed.

(** The script writes to its output path and to nothing else. *)
Lemma main_writes_output_only (argv : list string) (w w' : world T) r :
  main argv w = (r, w') ->
  forall path, argv !! 3 <> Some path -> files w' !! path = files w !! path.
Proof.
  unfold main, mbind, io_bind, argv_get, lift, loadtxt.
  destruct (argv !! 1) as [f1|]; [|intros [= <- <-]; reflexivity].
  destruct (argv !! 2) as [f2|]; [|intros [= <- <-]; reflexivity].
  destruct (argv !! 3) as [out|]; [|intros [= <- <-]; reflexivity].
  destruct (match files w !! f1 with Some f => parse f | None => _ end)
    as [d1|]; [|intros [= <- <-]; reflexivity].
  destruct (match files w !! f2 with Some f => parse f | None => _ end)
    as [d2|]; [|intros [= <- <-]; reflexivity].
  destruct (combine _) as [s|e'] eqn:E; [|intros [= <- <-]; reflexivity].
  apply combine_frame in E as (_ & A & o & _ & -> & _).
  simpl. intros [= <- <-] path Hp. simpl.
  apply lookup_insert_ne. congruence.
Qed.

End CombinerFrame.

(** ** Peak detection *)

Section PeakFacts.
Context {T : Type} `{Dtype T}.

Lemma look_ahead_ge fuel (x : list T) i_max xi i :
  i <= look_ahead fuel x i_max xi i.
Proof.
  revert i. induction fuel as [|fuel IH]; intros i; simpl; [lia|].
  destruct (_ && _); [|lia]. specialize (IH (S i)). lia.
Qed.

Lemma look_ahead_le fuel (x : list T) i_max xi i :
  i <= i_max -> look_ahead fuel x i_max xi i <= i_max.
Proof.
  revert i. induction fuel as [|fuel IH]; intros i Hi; simpl; [lia|].
  destruct (Nat.ltb_spec i i_max) as [Hlt|Hge]; simpl; [|lia].
  destruct (eqb _ _); [apply IH|]; lia.
Qed.

(** Midpoints come out in strictly increasing order, none before the
    sample the loop stands at. *)
Lemma local_maxima_loop_sorted fuel (x : list T) i_max i :
  1 <= i ->
  StronglySorted lt (map (fun p => fst (fst p)) (local_maxima_loop fuel x i_max i))
  /\ Forall (fun m => i <= m) (map (fun p => fst (fst p)) (local_maxima_loop fuel x i_max i)).
Proof.
  revert i. induction fuel as [|fuel IH]; intros i Hi;
    cbn [local_maxima_loop map].
  { split; constructor. }
  destruct (Nat.ltb i i_max); [|split; constructor].
  assert (Hnext : forall k, i < k ->
    StronglySorted lt (map (fun p => fst (fst p)) (local_maxima_loop fuel x i_max k))
    /\ Forall (fun m => i <= m)
         (map (fun p => fst (fst p)) (local_maxima_loop fuel x i_max k))).
  { intros k Hk. destruct (IH k) as [S F]; [lia|]. split; [exact S|].
    eapply Forall_impl; [exact F|]. simpl. lia. }
  destruct (ltb (get x (i - 1)) (get x i)); [|apply Hnext; lia].
  pose proof (look_ahead_ge (length x) x i_max (get x i) (i + 1)) as Hge.
  set (i_ahead := look_ahead (length x) x i_max (get x i) (i + 1)) in *.
  destruct (ltb (get x i_ahead) (get x i)); [|apply Hnext; lia].
  cbn [map fst]. destruct (IH (i_ahead + 1)) as [S F]; [lia|].
  assert (Hmid_lo : i <= (i + (i_ahead - 1)) / 2)
    by (apply Nat.div_le_lower_bound; lia).
  assert (Hmid_hi : (i + (i_ahead - 1)) / 2 < i_ahead + 1).
  { apply Nat.Div0.div_lt_upper_bound. lia. }
  split.
  - constructor; [exact S|].
    eapply Forall_impl; [exact F|]. intros m Hm. cbv beta in Hm. lia.
  - constructor; [exact Hmid_lo|].
    eapply Forall_impl; [exact F|]. intros m Hm. cbv beta in Hm. lia.
Qed.

(** The loops are given as many steps as the array has samples; that is
    enough, more steps change nothing. *)
Lemma look_ahead_fuel f1 f2 (x : list T) i_max xi i :
  i_max - i <= f1 -> i_max - i <= f2 ->
  look_ahead f1 x i_max xi i = look_ahead f2 x i_max xi i.
Proof.
  revert f2 i. induction f1 as [|f1 IH]; intros [|f2] i H1 H2; simpl;
    try reflexivity.
  - destruct (Nat.ltb_spec i i_max); [lia|reflexivity].
  - destruct (Nat.ltb_spec i i_max); [lia|reflexivity].
  - destruct (Nat.ltb_spec i i_max); simpl; [|reflexivity].
    destruct (eqb _ _); [|reflexivity]. apply IH; lia.
Qed.

Lemma local_maxima_loop_fuel f1 f2 (x : list T) i_max i :
  i_max - i <= f1 -> i_max - i <= f2 ->
  local_maxima_loop f1 x i_max i = local_maxima_loop f2 x i_max i.
Proof.
  revert f2 i. induction f1 as [|f1 IH]; intros [|f2] i H1 H2;
    cbn [local_maxima_loop]; try reflexivity.
  - destruct (Nat.ltb_spec i i_max); [lia|reflexivity].
  - destruct (Nat.ltb_spec i i_max); [lia|reflexivity].
  - destruct (Nat.ltb_spec i i_max); [|reflexivity].
    pose proof (look_ahead_ge (length x) x i_max (get x i) (i + 1)).
    destruct (ltb (get x (i - 1)) (get x i)); [|apply IH; lia].
    destruct (ltb _ (get x i)); [|apply IH; lia].
    f_equal. apply IH; lia.
Qed.

Lemma local_maxima_1d_fuel (x : list T) fuel :
  length x <= fuel ->
  local_maxima_1d x = local_maxima_loop fuel x (length x - 1) 1.
Proof. intros Hf. apply local_maxima_loop_fuel; lia. Qed.

(** Every sample the look-ahead steps over equals the plateau's value. *)
Lemma look_ahead_plateau fuel (x : list T) i_max xi i k :
  i <= k < look_ahead fuel x i_max xi i ->
  k < i_max /\ eqb (get x k) xi = true.
Proof.
  revert i. induction fuel as [|fuel IH]; intros i; simpl; [lia|].
  destruct (Nat.ltb_spec i i_max) as [Hlt|Hge]; simpl; [|lia].
  destruct (eqb (get x i) xi) eqn:E; [|lia].
  intros Hk. destruct (Nat.eq_dec k i) as [->|Hne]; [auto|].
  apply (IH (S i)). lia.
Qed.

(** What a reported plateau looks like: it starts after a strictly lower
    sample, holds one value from its left to its right edge, ends before a
    strictly lower sample, lies inside the array, and its reported index is
    the midpoint of its edges. *)
Lemma local_maxima_loop_sound fuel (x : list T) i_max i mid l r :
  1 <= i ->
  In (mid, l, r) (local_maxima_loop fuel x i_max i) ->
  i <= l /\ l <= r /\ r < i_max /\ mid = (l + r) / 2 /\
  ltb (get x (l - 1)) (get x l) = true /\
  (forall k, l < k <= r -> eqb (get x k) (get x l) = true) /\
  ltb (get x (r + 1)) (get x l) = true.
Proof.
  revert i. induction fuel as [|fuel IH]; intros i Hi;
    cbn [local_maxima_loop]; [intros []|].
  assert (Hnext : forall k, i < k ->
    In (mid, l, r) (local_maxima_loop fuel x i_max k) ->
    i <= l /\ l <= r /\ r < i_max /\ mid = (l + r) / 2 /\
    ltb (get x (l - 1)) (get x l) = true /\
    (forall k, l < k <= r -> eqb (get x k) (get x l) = true) /\
    ltb (get x (r + 1)) (get x l) = true).
  { intros k Hk Hin. destruct (IH k) as (? & Hrest); [lia|exact Hin|].
    split; [lia|exact Hrest]. }
  destruct (Nat.ltb_spec i i_max) as [Hlt|Hge]; [|intros []].
  destruct (ltb (get x (i - 1)) (get x i)) eqn:Eleft; [|apply Hnext; lia].
  pose proof (look_ahead_ge (length x) x i_max (get x i) (i + 1)) as Hge.
  pose proof (look_ahead_le (length x) x i_max (get x i) (i + 1)) as Hle.
  pose proof (fun k => look_ahead_plateau (length x) x i_max (get x i) (i + 1) k)
    as Hplat.
  set (i_ahead := look_ahead (length x) x i_max (get x i) (i + 1)) in *.
  destruct (ltb (get x i_ahead) (get x i)) eqn:Eright; [|apply Hnext; lia].
  intros [Hin|Hin]; [|apply Hnext in Hin; [exact Hin|lia]].
  injection Hin as <- <- <-.
  replace (i_ahead - 1 + 1) with i_ahead by lia.
  repeat split; try lia; try assumption.
  intros k Hk. apply Hplat. lia.
Qed.

(** A sample that passes the local-maximum test is the midpoint of a
    plateau that is strictly higher than the samples next to its two edges. *)
Lemma is_local_maximum_plateau (x : list T) (i : nat) :
  is_local_maximum x i = true ->
  exists l r,
    1 <= l /\ l <= r /\ r + 1 < length x /\ i = (l + r) / 2 /\
    ltb (get x (l - 1)) (get x l) = true /\
    (forall k, l < k <= r -> eqb (get x k) (get x l) = true) /\
    ltb (get x (r + 1)) (get x l) = true.
Proof.
  unfold is_local_maximum. rewrite List.existsb_exists.
  intros (m & Hin & Hm). apply Nat.eqb_eq in Hm as <-.
  apply List.in_map_iff in Hin as ([[mid l] r] & Hmid & Hin).
  cbn [fst] in Hmid. subst mid.
  apply local_maxima_loop_sound in Hin; [|lia].
  destruct Hin as (Hl & Hlr & Hr & Hi & Hleft & Hplat & Hright).
  exists l, r. repeat split; try assumption; lia.
Qed.

Lemma is_plateau_spec (x : list T) (l r : nat) :
  is_plateau x l r = true <->
  1 <= l /\ l <= r /\ r + 1 < length x /\
  ltb (get x (l - 1)) (get x l) = true /\
  (forall k, l < k <= r -> eqb (get x k) (get x l) = true) /\
  ltb (get x (r + 1)) (get x l) = true.
Proof.
  unfold is_plateau. rewrite !andb_true_iff, List.forallb_forall.
  rewrite !Nat.leb_le, Nat.ltb_lt.
  split.
  - intros (((((H1 & H2) & H3) & H4) & H5) & H6). repeat split; try assumption.
    intros k Hk. apply H5. apply List.in_seq. lia.
  - intros (H1 & H2 & H3 & H4 & H5 & H6). repeat split; try assumption.
    intros k Hk. apply List.in_seq in Hk. apply H5. lia.
Qed.

Lemma local_maximum_test_spec (x : list T) (i : nat) :
  local_maximum_test x i = true <->
  exists l r, is_plateau x l r = true /\ i = (l + r) / 2.
Proof.
  unfold local_maximum_test. rewrite List.existsb_exists. split.
  - intros (l & _ & Hl). apply List.existsb_exists in Hl as (r & _ & Hr).
    apply andb_true_iff in Hr as [Hp Hi]. apply Nat.eqb_eq in Hi. eauto.
  - intros (l & r & Hp & Hi).
    pose proof (proj1 (is_plateau_spec x l r) Hp) as (H1 & H2 & H3 & _).
    exists l. split; [apply List.in_seq; lia|].
    apply List.existsb_exists. exists r. split; [apply List.in_seq; lia|].
    rewrite Hp. apply Nat.eqb_eq. exact Hi.
Qed.

(** Whatever the comparisons are, the loop reports only samples that pass
    the documented test. *)
Lemma is_local_maximum_sound (x : list T) (i : nat) :
  is_local_maximum x i = true -> local_maximum_test x i = true.
Proof.
  intros Hi. apply is_local_maximum_plateau in Hi as (l & r & Hp).
  apply local_maximum_test_spec. exists l, r.
  split; [apply is_plateau_spec; tauto | tauto].
Qed.

(** The look-ahead stops right after a run of samples equal to [xi]. *)
Lemma look_ahead_exact fuel (x : list T) i_max xi j r :
  i_max - j <= fuel -> j <= r + 1 -> r + 1 <= i_max ->
  (forall k, j <= k <= r -> eqb (get x k) xi = true) ->
  r + 1 = i_max \/ eqb (get x (r + 1)) xi = false ->
  look_ahead fuel x i_max xi j = r + 1.
Proof.
  revert j. induction fuel as [|fuel IH]; intros j Hf Hj Hr Heq Hstop.
  - simpl. lia.
  - simpl. destruct (Nat.eq_dec j (r + 1)) as [->|Hne].
    + destruct Hstop as [ <- | -> ].
      * rewrite Nat.ltb_irrefl. reflexivity.
      * rewrite andb_false_r. reflexivity.
    + assert (Hlt : Nat.ltb j i_max = true) by (apply Nat.ltb_lt; lia).
      rewrite Hlt. rewrite (Heq j) by lia. simpl.
      apply IH; [lia | lia | lia | | exact Hstop].
      intros k Hk. apply Heq. lia.
Qed.

Lemma filter_sorted (f : nat -> bool) (l : list nat) :
  StronglySorted lt l -> StronglySorted lt (List.filter f l).
Proof.
  induction 1 as [|a l _ IH Ha]; simpl; [constructor|].
  destruct (f a); [|exact IH].
  constructor; [exact IH|].
  rewrite List.Forall_forall in *. intros y Hy.
  apply List.filter_In in Hy as [Hy _]. auto.
Qed.

Lemma find_peaks_sorted (x : list T) pmin :
  StronglySorted lt (find_peaks x pmin).
Proof.
  unfold find_peaks, local_maxima_1d. apply filter_sorted.
  apply local_maxima_loop_sorted. lia.
Qed.

Lemma find_peaks_passes (x : list T) pmin i :
  In i (find_peaks x pmin) <-> passes_peak_test x pmin i = true.
Proof.
  unfold find_peaks, passes_peak_test, is_local_maximum.
  rewrite List.filter_In, andb_true_iff, List.existsb_exists.
  split.
  - intros [Hin Hp]. split; [|exact Hp].
    exists i. split; [exact Hin|apply Nat.eqb_refl].
  - intros [(j & Hin & Hj) Hp]. apply Nat.eqb_eq in Hj as ->. auto.
Qed.

(** The first detected peak is the least sample that passes the test. *)
Lemma first_peak_least (x : list T) pmin i :
  find_peaks x pmin !! 0 = Some i <->
  passes_peak_test x pmin i = true /\
  forall j, j < i -> passes_peak_test x pmin j = false.
Proof.
  pose proof (find_peaks_sorted x pmin) as S.
  pose proof (find_peaks_passes x pmin) as P.
  destruct (find_peaks x pmin) as [|a l]; simpl.
  - split; [discriminate|]. intros [Hp _]. apply P in Hp. destruct Hp.
  - inversion S as [|? ? _ Hall]; subst.
    rewrite List.Forall_forall in Hall.
    split.
    + intros [= ->]. split; [apply P; left; reflexivity|].
      intros j Hj. destruct (passes_peak_test x pmin j) eqn:E; [|reflexivity].
      apply P in E as [->|E]; [lia|]. apply Hall in E. lia.
    + intros [Hp Hmin]. apply P in Hp as [->|Hp]; [reflexivity|].
      apply Hall in Hp. specialize (Hmin a Hp).
      assert (Ha : passes_peak_test x pmin a = true) by (apply P; left; reflexivity).
      congruence.
Qed.

Lemma no_peak (x : list T) pmin :
  find_peaks x pmin = [] <-> forall i, passes_peak_test x pmin i = false.
Proof.
  pose proof (find_peaks_passes x pmin) as P. split.
  - intros E i. destruct (passes_peak_test x pmin i) eqn:Hi; [|reflexivity].
    apply P in Hi. rewrite E in Hi. destruct Hi.
  - intros Hno. destruct (find_peaks x pmin) as [|a l]; [reflexivity|].
    assert (Ha : passes_peak_test x pmin a = true) by (apply P; left; reflexivity).
    rewrite Hno in Ha. discriminate.
Qed.

End PeakFacts.

(** With ordered comparisons the loop reports every sample that passes the
    documented test: it never jumps over the left edge of a plateau. *)
Section PeakOrderFacts.
Context {T : Type} `{OrderLaws T}.

Lemma eqb_not_gtb (a b : T) : eqb a b = true -> ltb b a = false.
Proof.
  intros E. rewrite (ltb_eqb_r b a b E).
  destruct (ltb b b) eqn:F; [|reflexivity].
  pose proof (ltb_asym b b F). congruence.
Qed.

Lemma local_maxima_loop_complete fuel (x : list T) i l r :
  is_plateau x l r = true -> 1 <= i -> i <= l -> length x - 1 - i <= fuel ->
  In ((l + r) / 2, l, r) (local_maxima_loop fuel x (length x - 1) i).
Proof.
  intros Hp. apply is_plateau_spec in Hp
    as (Hl1 & Hlr & Hrn & Hleft & Hflat & Hright).
  revert i. induction fuel as [|fuel IH]; intros i Hi Hil Hf; [lia|].
  cbn [local_maxima_loop].
  assert (Hlt : Nat.ltb i (length x - 1) = true) by (apply Nat.ltb_lt; lia).
  rewrite Hlt.
  destruct (Nat.eq_dec i l) as [->|Hne].
  - rewrite Hleft.
    rewrite (look_ahead_exact (length x) x (length x - 1) (get x l) (l + 1) r);
      try lia.
    + rewrite Hright. left. replace (r + 1 - 1) with r by lia. reflexivity.
    + intros k Hk. apply Hflat. lia.
    + right. destruct (eqb (get x (r + 1)) (get x l)) eqn:E; [|reflexivity].
      apply eqb_not_ltb in E. congruence.
  - destruct (ltb (get x (i - 1)) (get x i)) eqn:Eleft; [|apply IH; lia].
    pose proof (look_ahead_ge (length x) x (length x - 1) (get x i) (i + 1)) as Hge.
    pose proof (fun k => look_ahead_plateau (length x) x (length x - 1) (get x i)
                           (i + 1) k) as Hrun.
    set (i_ahead := look_ahead (length x) x (length x - 1) (get x i) (i + 1)) in *.
    destruct (ltb (get x i_ahead) (get x i)) eqn:Eright; [|apply IH; lia].
    assert (Hjump : i_ahead + 1 <= l).
    { destruct (Nat.le_gt_cases (i_ahead + 1) l) as [|Hin]; [assumption|].
      exfalso.
      destruct (Nat.eq_dec l i_ahead) as [El|Hl].
      - (* the left edge would be the sample that ended the plateau *)
        subst l. destruct (Nat.eq_dec (i_ahead - 1) i) as [Ei|Hi'].
        + rewrite Ei in Hleft. apply ltb_asym in Hleft. congruence.
        + assert (E : eqb (get x (i_ahead - 1)) (get x i) = true)
            by (apply Hrun; lia).
          pose proof (ltb_eqb_r (get x i_ahead) _ _ E) as R.
          apply ltb_asym in Hleft. congruence.
      - (* the left edge would lie inside the plateau *)
        assert (El : eqb (get x l) (get x i) = true) by (apply Hrun; lia).
        destruct (Nat.eq_dec (l - 1) i) as [Ei|Hi'].
        + rewrite Ei in Hleft. apply eqb_not_gtb in El. congruence.
        + assert (E : eqb (get x (l - 1)) (get x i) = true)
            by (apply Hrun; lia).
          rewrite (ltb_eqb_r _ _ _ El) in Hleft.
          apply eqb_not_ltb in E. congruence. }
    right. apply IH; lia.
Qed.

Lemma is_local_maximum_complete (x : list T) (i : nat) :
  is_local_maximum x i = local_maximum_test x i.
Proof.
  destruct (local_maximum_test x i) eqn:E.
  - apply local_maximum_test_spec in E as (l & r & Hp & ->).
    unfold is_local_maximum. apply List.existsb_exists.
    exists ((l + r) / 2). split; [|apply Nat.eqb_refl].
    apply List.in_map_iff. exists ((l + r) / 2, l, r). split; [reflexivity|].
    pose proof (proj1 (is_plateau_spec x l r) Hp) as (? & ? & ? & _).
    apply local_maxima_loop_complete; [exact Hp | lia ..].
  - destruct (is_local_maximum x i) eqn:F; [|reflexivity].
    apply is_local_maximum_sound in F. congruence.
Qed.

Lemma passes_peak_test_documented (x : list T) (pmin : T) (i : nat) :
  passes_peak_test x pmin i = prominent_peak_test x pmin i.
Proof.
  unfold passes_peak_test, prominent_peak_test.
  rewrite is_local_maximum_complete. reflexivity.
Qed.

End PeakOrderFacts.

(** ** The trapezoidal rule without rounding *)

#[export] Instance exact_arith_Qc : ExactArith Qc.
Proof.
  split.
  - constructor; intros; cbn [of_Z add mul sub exact];
      change (Q2Qc (inject_Z 0)) with 0%Qc;
      change (Q2Qc (inject_Z 1)) with 1%Qc; ring.
  - intros a. cbn [of_Z add div exact].
    change (Q2Qc (inject_Z 2)) with (1 + 1)%Qc. field. discriminate.
Qed.

Section ExactFacts.
Context {T : Type} `{ExactArith T}.

Add Ring exact_ring_structure : exact_ring.

Lemma halved_trapezoid (d F : T) : div (mul d (add F F)) (of_Z 2) = mul d F.
Proof.
  replace (mul d (add F F)) with (add (mul d F) (mul d F)) by ring.
  apply exact_half.
Qed.

Lemma last_shift (a b : T) (x : list T) :
  List.last (b :: x) a = List.last x b.
Proof.
  revert a b. induction x as [|c x IH]; intros a b; [reflexivity|].
  change (List.last (b :: c :: x) a) with (List.last (c :: x) a).
  rewrite (IH a c), (IH b c). reflexivity.
Qed.

(** Summing the steps of a sequence of positions, each times [F], from an
    accumulator: the steps telescope. *)
Lemma sum_steps_telescopes (F a acc : T) (x : list T) :
  fold_left add (map (fun d => mul d F) (diff (a :: x))) acc
  = add acc (mul (sub (List.last x a) a) F).
Proof.
  revert a acc. induction x as [|b x IH]; intros a acc.
  - simpl. ring.
  - change (diff (a :: b :: x)) with (sub b a :: diff (b :: x)).
    cbn [map fold_left]. rewrite IH.
    rewrite last_shift. ring.
Qed.

Lemma constant_is_replicate (F : T) (y : list T) :
  Forall (fun v => v = F) y -> y = replicate (length y) F.
Proof. induction 1 as [|v y -> _ IH]; simpl; [reflexivity|]. f_equal. exact IH. Qed.

(** [y[1:] + y[:-1]] for a constant [y]. *)
Lemma constant_pair_sums (F : T) n :
  zip_with add (drop 1 (replicate n F)) (replicate n F)
  = replicate (n - 1) (add F F).
Proof.
  destruct n as [|m]; [reflexivity|].
  cbn [replicate drop]. rewrite drop_0. replace (S m - 1) with m by lia.
  induction m as [|m IH]; [reflexivity|].
  cbn [replicate zip_with]. f_equal. exact IH.
Qed.

Lemma scale_by_constant (c : T) (d : list T) :
  zip_with mul d (replicate (length d) c) = map (fun t => mul t c) d.
Proof. induction d as [|a d IH]; simpl; [reflexivity|]. f_equal. exact IH. Qed.

Lemma diff_length (x : list T) : length (diff x) = length x - 1.
Proof.
  unfold diff. rewrite length_zip_with, length_drop. lia.
Qed.

(** Without rounding the order of the additions does not matter: the
    pairwise sum is the running sum. *)
Lemma fold_add_from (l : list T) (acc : T) :
  fold_left add l acc = add acc (fold_left add l (of_Z 0)).
Proof.
  revert acc. induction l as [|a l IH]; intros acc; cbn [fold_left].
  - ring.
  - rewrite IH, (IH (add (of_Z 0) a)). ring.
Qed.

Lemma fold_add_app (l k : list T) :
  fold_left add (l ++ k) (of_Z 0)
  = add (fold_left add l (of_Z 0)) (fold_left add k (of_Z 0)).
Proof. rewrite fold_left_app. apply fold_add_from. Qed.

Lemma fold_add_zip (r b : list T) :
  length r = length b ->
  fold_left add (zip_with add r b) (of_Z 0)
  = add (fold_left add r (of_Z 0)) (fold_left add b (of_Z 0)).
Proof.
  revert b. induction r as [|x r IH]; intros [|y b] Hl; try discriminate.
  - cbn [zip_with fold_left]. ring.
  - cbn [zip_with fold_left].
    rewrite (fold_add_from _ (add (of_Z 0) (add x y))),
      (fold_add_from r (add (of_Z 0) x)), (fold_add_from b (add (of_Z 0) y)).
    rewrite IH by (injection Hl; auto). ring.
Qed.

Lemma accumulate_blocks_total (blocks : nat) : forall r a : list T,
  length r = 8 -> 8 * blocks <= length a ->
  length (fst (accumulate_blocks blocks r a)) = 8 /\
  add (fold_left add (fst (accumulate_blocks blocks r a)) (of_Z 0))
      (fold_left add (snd (accumulate_blocks blocks r a)) (of_Z 0))
  = add (fold_left add r (of_Z 0)) (fold_left add a (of_Z 0)).
Proof.
  induction blocks as [|b IH]; intros r a Hr Ha.
  - cbn [accumulate_blocks fst snd]. split; [exact Hr | reflexivity].
  - cbn [accumulate_blocks].
    assert (Ht : length (take 8 a) = 8) by (rewrite length_take; lia).
    destruct (IH (zip_with add r (take 8 a)) (drop 8 a)) as [Hl Hs].
    + rewrite length_zip_with, Hr, Ht. reflexivity.
    + rewrite length_drop. lia.
    + split; [exact Hl|]. rewrite Hs, fold_add_zip by congruence.
      rewrite <- (take_drop 8 a) at 3. rewrite fold_add_app. ring.
Qed.

Lemma unrolled_sum_total (a : list T) :
  8 <= length a -> unrolled_sum a = fold_left add a (of_Z 0).
Proof.
  intros Hn. unfold unrolled_sum.
  pose proof (Nat.Div0.mul_div_le (length a - length a mod 8) 8) as Hd.
  pose proof (Nat.Div0.div_mod (length a) 8) as Hm.
  assert (Hq : 1 <= (length a - length a mod 8) / 8).
  { replace (length a - length a mod 8) with (length a / 8 * 8) by lia.
    rewrite Nat.div_mul by discriminate.
    apply (Nat.Div0.div_le_mono 8 (length a) 8) in Hn.
    rewrite Nat.div_same in Hn by discriminate. exact Hn. }
  destruct (accumulate_blocks_total ((length a - length a mod 8) / 8 - 1)
              (take 8 a) (drop 8 a)) as [Hl Hs].
  - rewrite length_take. lia.
  - rewrite length_drop. lia.
  - destruct (accumulate_blocks _ (take 8 a) (drop 8 a)) as [r rest].
    cbn [fst snd] in Hl, Hs.
    rewrite <- (fold_add_app (take 8 a)), take_drop in Hs.
    do 8 (destruct r as [|? r]; [discriminate|]).
    destruct r; [|discriminate].
    rewrite fold_add_from, <- Hs. cbn [fold_left]. ring.
Qed.

Lemma pairwise_sum_total (fuel : nat) : forall a : list T,
  length a <= fuel -> pairwise_sum fuel a = fold_left add a (of_Z 0).
Proof.
  induction fuel as [|fuel IH]; intros a Hf.
  - destruct a; [reflexivity | cbn [length] in Hf; lia].
  - cbn [pairwise_sum].
    destruct (Nat.ltb_spec (length a) 8) as [|H8]; [reflexivity|].
    destruct (Nat.leb_spec (length a) 128) as [|H128];
      [apply unrolled_sum_total; exact H8|].
    pose proof (Nat.Div0.mod_le (length a / 2) 8) as Hm.
    pose proof (Nat.mod_upper_bound (length a / 2) 8 ltac:(discriminate)) as Hu.
    pose proof (Nat.Div0.mul_div_le (length a) 2) as Hd.
    pose proof (Nat.Div0.div_mod (length a) 2) as He.
    pose proof (Nat.mod_upper_bound (length a) 2 ltac:(discriminate)) as Hv.
    rewrite !IH.
    + rewrite <- fold_add_app, take_drop. reflexivity.
    + rewrite length_drop. lia.
    + rewrite length_take. lia.
Qed.

Lemma np_sum_total (l : list T) : np_sum l = fold_left add l (of_Z 0).
Proof. apply pairwise_sum_total. reflexivity. Qed.

(** In exact arithmetic the trapezoidal rule integrates a constant force
    over any sequence of positions to the force times the distance between
    the last and the first position. *)
Lemma trapz_constant (F : T) (y x : list T) (a : T) :
  length y = length x -> Forall (fun v => v = F) y ->
  head x = Some a ->
  trapz y x = Ok (mul F (sub (List.last x a) a)).
Proof.
  intros Hlen Hy Hx.
  destruct x as [|a' x]; [discriminate|]. injection Hx as ->.
  rewrite (constant_is_replicate F y Hy), Hlen.
  unfold trapz. rewrite constant_pair_sums.
  rewrite broadcast2_same
    by (rewrite diff_length, length_replicate; reflexivity).
  cbn [mbind result_bind]. f_equal.
  replace (length (a :: x) - 1) with (length (diff (a :: x)))
    by apply diff_length.
  rewrite scale_by_constant, map_map.
  rewrite (map_ext _ (fun d => mul d F)) by (intros d; apply halved_trapezoid).
  rewrite np_sum_total, sum_steps_telescopes.
  rewrite last_shift. ring.
Qed.

Lemma sub_zero (a : T) : sub a (of_Z 0) = a.
Proof. ring. Qed.

End ExactFacts.

(** ** The contact counter *)

Section ContactsFacts.
Context {T : Type} `{Dtype T} {Pos Box : Type}.
Variable distance : Box -> Pos -> Pos -> T.
Import Contacts.

Lemma where_rows_length i (m : list (list bool)) :
  length (where_rows i m) = length (List.filter (fun b => b) (concat m)).
Proof.
  revert i. induction m as [|r m IH]; intros i; simpl; [reflexivity|].
  rewrite List.filter_app, !length_app, length_map, IH. reflexivity.
Qed.

Lemma filter_map_length {A} (f : A -> bool) (l : list A) :
  length (List.filter (fun b => b) (map f l)) = length (List.filter f l).
Proof.
  induction l as [|a l IH]; simpl; [reflexivity|].
  destruct (f a); simpl; rewrite IH; reflexivity.
Qed.

Lemma concat_map_map {A B} (f : A -> B) (m : list (list A)) :
  concat (map (map f) m) = map f (concat m).
Proof.
  induction m as [|r m IH]; simpl; [reflexivity|].
  rewrite map_app, IH. reflexivity.
Qed.

(** [len(np.where(d < threshold)[0])] counts the entries below the
    threshold. *)
Lemma num_group_counts (group1 group2 : list nat) (thr : T) (ts : frame T Pos Box) :
  num_group distance group1 group2 thr ts
  = contacts_below thr
      (distance_array distance (positions group1 ts) (positions group2 ts)
         (dimensions ts)).
Proof.
  unfold num_group, contacts_below.
  rewrite where_rows_length, concat_map_map, filter_map_length. reflexivity.
Qed.

Lemma distance_array_size (p1 p2 : list Pos) (box : Box) :
  length (concat (distance_array distance p1 p2 box)) = length p1 * length p2.
Proof.
  unfold distance_array. induction p1 as [|p p1 IH]; simpl; [reflexivity|].
  rewrite length_app, length_map, IH. reflexivity.
Qed.

Lemma filter_length_le {A} (f : A -> bool) (l : list A) :
  length (List.filter f l) <= length l.
Proof.
  induction l as [|a l IH]; simpl; [lia|]. destruct (f a); simpl; lia.
Qed.

Lemma num_group_bound (group1 group2 : list nat) (thr : T) (ts : frame T Pos Box) :
  num_group distance group1 group2 thr ts <= length group1 * length group2.
Proof.
  rewrite num_group_counts. unfold contacts_below.
  etransitivity; [apply filter_length_le|].
  rewrite distance_array_size. unfold positions. rewrite !length_map. lia.
Qed.

(** The guard of lines 68 and 69 is the identity. *)
Lemma guard_is_identity n : (if Nat.ltb 0 n then n else 0) = n.
Proof. destruct n; reflexivity. Qed.

Lemma loop_body_appends (group1 group2 : list nat) (thr : T)
    (results : list (T * nat)) (ts : frame T Pos Box) :
  loop_body distance group1 group2 thr results ts
  = results ++ [(time ts, num_group distance group1 group2 thr ts)].
Proof. unfold loop_body. rewrite guard_is_identity. reflexivity. Qed.

(** The loop over the trajectory is a map over its frames. *)
Lemma loop_is_map (group1 group2 : list nat) (thr : T)
    (frames : list (frame T Pos Box)) (results : list (T * nat)) :
  fold_left (loop_body distance group1 group2 thr) frames results
  = results ++
    map (fun ts => (time ts, num_group distance group1 group2 thr ts)) frames.
Proof.
  revert results. induction frames as [|ts frames IH]; intros results; simpl.
  - rewrite app_nil_r. reflexivity.
  - rewrite IH, loop_body_appends, <- app_assoc. reflexivity.
Qed.

Lemma print_all_appends (ls : list (line T)) (w : world T) :
  print_all ls w = (Ok (), {| files := files w; stdout := stdout w ++ ls |}).
Proof.
  revert w. induction ls as [|l ls IH]; intros w; simpl.
  - rewrite app_nil_r. destruct w; reflexivity.
  - unfold mbind, io_bind, print. rewrite IH. simpl.
    rewrite <- app_assoc. reflexivity.
Qed.

End ContactsFacts.

(** ** The work integrator and the contact counter as statements *)

Section ScriptFacts.
Context {T : Type} `{Dtype T}.

(** Every statement of the work integrator before its last three only
    reads; the last three cannot raise. *)
Lemma work_main_atomic (argv : list string) : atomic (T:=T) (Work.main argv).
Proof.
  unfold Work.main.
  do 9 (apply atomic_bind; [auto with io | intros ?]).
  apply never_raises_atomic.
  apply never_raises_bind; [auto with io | intros ?].
  auto with io.
Qed.

(** The contact counter has no statement that writes a file. *)
Lemma contacts_main_keeps_files {Pos Box : Type}
    (distance : Box -> Pos -> Pos -> T) open_universe select_atoms parse_float
    (argv : list string) :
  keeps_files
    (Contacts.main distance open_universe select_atoms parse_float argv).
Proof.
  unfold Contacts.main. destruct (negb _).
  - apply keeps_files_bind; [auto with io | intros ?; auto with io].
  - do 7 (apply keeps_files_bind; [auto with io | intros ?]).
    auto with io.
Qed.

End ScriptFacts.

(** ** Comparison and addition at [float64] *)

Lemma SFcompare_Eq_subst (a c : spec_float) :
  SFcompare a c = Some Eq -> forall b, SFcompare b a = SFcompare b c.
Proof.
  destruct a as [sa|sa| |sa ma ea], c as [sc|sc| |sc mc ec]; simpl;
    try discriminate; try (destruct sa; discriminate);
    try (destruct sc; discriminate).
  - intros _ b. destruct b; reflexivity.
  - destruct sa, sc; try discriminate; intros _; reflexivity.
  - destruct sa, sc; try discriminate;
      destruct (Z.compare_spec ea ec) as [->| |]; try discriminate; intros E b;
      injection E as E;
      try (apply (f_equal CompOpp) in E; rewrite CompOpp_involutive in E;
           simpl in E);
      apply Pos.compare_eq in E; subst; reflexivity.
Qed.

Lemma SFcompare_Lt_asym (a b : spec_float) :
  SFcompare a b = Some Lt -> SFcompare b a = Some Gt.
Proof.
  destruct a as [sa|sa| |sa ma ea], b as [sb|sb| |sb mb eb]; simpl;
    try discriminate;
    try (destruct sa; try discriminate; reflexivity);
    try (destruct sb; try discriminate; reflexivity).
  - destruct sa, sb; try discriminate; reflexivity.
  - destruct sa, sb; try discriminate; try reflexivity;
      rewrite (Z.compare_antisym ea eb);
      destruct (Z.compare ea eb); simpl; try discriminate; try reflexivity;
      change (Pos.compare_cont Eq mb ma)
        with (Pos.compare_cont (CompOpp Eq) mb ma);
      rewrite <- Pos.compare_cont_antisym;
      destruct (Pos.compare_cont Eq ma mb); simpl; try discriminate;
      reflexivity.
Qed.

#[export] Instance float64_order : OrderLaws float.
Proof.
  split; cbn [ltb eqb float64]; intros a b.
  - rewrite !FloatAxioms.ltb_spec. unfold SFltb.
    destruct (SFcompare (Prim2SF a) (Prim2SF b)) as [[| |]|] eqn:E;
      try discriminate.
    intros _. rewrite (SFcompare_Lt_asym _ _ E). reflexivity.
  - rewrite FloatAxioms.eqb_spec, FloatAxioms.ltb_spec. unfold SFeqb, SFltb.
    destruct (SFcompare (Prim2SF a) (Prim2SF b)) as [[| |]|];
      try discriminate. reflexivity.
  - intros c. rewrite FloatAxioms.eqb_spec, !FloatAxioms.ltb_spec. unfold SFeqb, SFltb.
    destruct (SFcompare (Prim2SF b) (Prim2SF c)) as [[| |]|] eqn:E;
      try discriminate.
    intros _. rewrite (SFcompare_Eq_subst _ _ E). reflexivity.
Qed.

Lemma float_add_comm (x y : float) : PrimFloat.add x y = PrimFloat.add y x.
Proof.
  apply Prim2SF_inj. rewrite !add_spec.
  destruct (Prim2SF x) as [sx|sx| |sx mx ex], (Prim2SF y) as [sy|sy| |sy my ey];
    try reflexivity; unfold SF64add, SFadd.
  - destruct sx, sy; reflexivity.
  - destruct sx, sy; reflexivity.
  - rewrite (Z.min_comm ey ex), Z.add_comm. reflexivity.
Qed.

Lemma quadrature_comm (u1 u2 : float) :
  Combiner.quadrature u1 u2 = Combiner.quadrature u2 u1.
Proof.
  unfold Combiner.quadrature. cbn [add float64].
  rewrite float_add_comm. reflexivity.
Qed.

Lemma zip_with_comm {A B} (f : A -> A -> B) (l k : list A) :
  (forall a b, f a b = f b a) -> zip_with f l k = zip_with f k l.
Proof.
  intros Hf. revert k. induction l as [|a l IH]; intros [|b k]; simpl;
    try reflexivity. rewrite Hf, IH. reflexivity.
Qed.

(** ** The combiner on files *)

Section CombinerFiles.
Context {T : Type} `{Dtype T} `{Sqrt T}.
Import Combiner.

(** The script is [combine_files] between its reads and its write. *)
Lemma main_runs (script file1 file2 output_file : string) (f1 f2 : file T)
    (w : world T) :
  files w !! file1 = Some f1 -> files w !! file2 = Some f2 ->
  main [script; file1; file2; output_file] w
  = match combine_files f1 f2 with
    | Ok d => savetxt output_file d w
    | Raise e => (Raise e, w)
    end.
Proof.
  intros E1 E2. unfold main, combine_files, mbind at 1 2 3 4 5 6, io_bind.
  cbn [argv_get lookup list_lookup lift]. unfold loadtxt. rewrite E1, E2.
  destruct (parse f1) as [d1|e]; [|reflexivity].
  destruct (parse f2) as [d2|e]; [|reflexivity].
  cbn [mbind result_bind].
  destruct (combine _) as [s|e]; reflexivity.
Qed.

Lemma parse_table (rows : list (list T)) :
  valid_table rows -> 2 <= length rows -> parse (Text rows) = Ok (Arr2 rows).
Proof.
  intros [Hrect Hw] Hn. unfold parse. rewrite Hrect, squeeze_table; auto.
  eapply Forall_impl; [exact Hw|]. simpl. lia.
Qed.

(** A file of one row, or of none, loads as an array that is not 2-D. *)
Lemma parse_short (rows : list (list T)) :
  rectangular rows = true -> length rows < 2 ->
  exists d, parse (Text rows) = Ok d /\ col 1 d = Raise IndexError.
Proof.
  intros Hrect Hn. unfold parse. rewrite Hrect.
  destruct rows as [|r [|r' rows]]; simpl in Hn; try lia.
  - eexists. split; reflexivity.
  - destruct r as [|x [|y r]]; eexists; split; reflexivity.
Qed.

Lemma combine_files_short (A B : list (list T)) :
  rectangular A = true -> rectangular B = true -> length A < 2 ->
  combine_files (Text A) (Text B) = Raise IndexError.
Proof.
  intros HA HB Hn. unfold combine_files.
  destruct (parse_short A HA Hn) as (d & -> & Hd).
  unfold parse at 1. rewrite HB. cbn [mbind result_bind].
  unfold combine, add_second_columns. cbn [data1]. rewrite Hd. reflexivity.
Qed.

(** On valid tables of two rows or more the script computes the table the
    header of the script describes. *)
Lemma combine_files_tables (A B : list (list T)) :
  valid_table A -> valid_table B -> length A = length B -> 2 <= length A ->
  exists out v1 w1 u1 u2,
    column 1 A = Ok v1 /\ column 1 B = Ok w1 /\
    column 2 A = Ok u1 /\ column 2 B = Ok u2 /\
    combine_files (Text A) (Text B) = Ok (Arr2 out) /\
    length out = length A /\
    column 1 out = Ok (zip_with add v1 w1) /\
    column 2 out = Ok (zip_with quadrature u1 u2) /\
    forall j, j <> 1 -> j <> 2 -> column j out = column j A.
Proof.
  intros HA HB Hlen Hn.
  destruct (combine_tables A B) as (out & v1 & w1 & u1 & u2 & C);
    [apply HA | apply HB | exact Hlen |].
  destruct C as (? & ? & ? & ? & Hc & ? & ? & ? & ?).
  exists out, v1, w1, u1, u2. repeat split; try assumption.
  unfold combine_files.
  rewrite (parse_table A), (parse_table B) by (assumption || lia).
  cbn [mbind result_bind]. rewrite Hc. reflexivity.
Qed.

Lemma main_contract (script file1 file2 output_file : string)
    (A B : list (list T)) (w : world T) :
  files w !! file1 = Some (Text A) -> files w !! file2 = Some (Text B) ->
  valid_table A -> valid_table B -> length A = length B -> 2 <= length A ->
  exists out v1 w1 u1 u2,
    column 1 A = Ok v1 /\ column 1 B = Ok w1 /\
    column 2 A = Ok u1 /\ column 2 B = Ok u2 /\
    main [script; file1; file2; output_file] w
      = (Ok (), {| files := <[output_file := Text (map (map printf_8f) out)]>
                              (files w);
                   stdout := stdout w |}) /\
    length out = length A /\
    column 0 out = column 0 A /\
    column 1 out = Ok (zip_with add v1 w1) /\
    column 2 out = Ok (zip_with quadrature u1 u2).
Proof.
  intros E1 E2 HA HB Hlen Hn.
  destruct (combine_files_tables A B HA HB Hlen Hn)
    as (out & v1 & w1 & u1 & u2 & ? & ? & ? & ? & Hc & ? & ? & ? & Hj).
  exists out, v1, w1, u1, u2. repeat split; try assumption.
  - rewrite (main_runs _ _ _ _ _ _ _ E1 E2), Hc. reflexivity.
  - apply Hj; lia.
Qed.

End CombinerFiles.

(** * The claims *)

(** ** Contact counter *)

Section ContactsClaims.
Context {T : Type} `{Dtype T} {Pos Box : Type}.
Variable distance : Box -> Pos -> Pos -> T.
Variable open_universe : string -> string -> result (Contacts.universe T Pos Box).
Variable select_atoms : Contacts.universe T Pos Box -> string -> result (list nat).
Variable parse_float : string -> result T.
Import Contacts.

(** The records of a run whose universe opens and whose selections parse. *)
Lemma analyze_records (ag1 ag2 top trj : string) (thr : T)
    (univ : universe T Pos Box) (g1 g2 : list nat) :
  open_universe top trj = Ok univ ->
  select_atoms univ ag1 = Ok g1 -> select_atoms univ ag2 = Ok g2 ->
  analyze_vdw_contacts distance open_universe select_atoms ag1 ag2 thr top trj
  = Ok (map (fun ts => (time ts, num_group distance g1 g2 thr ts))
          (trajectory univ)).
Proof.
  intros Eu E1 E2. unfold analyze_vdw_contacts.
  rewrite Eu. cbn [mbind result_bind]. rewrite E1. cbn [mbind result_bind].
  rewrite E2. cbn [mbind result_bind]. rewrite loop_is_map. reflexivity.
Qed.

Lemma no_atoms_no_contacts (g1 g2 : list nat) (thr : T) (ts : frame T Pos Box) :
  g1 = [] \/ g2 = [] -> num_group distance g1 g2 thr ts = 0.
Proof.
  intros Hg. rewrite num_group_counts. unfold contacts_below.
  assert (E : length (concat (distance_array distance (positions g1 ts)
                                (positions g2 ts) (dimensions ts))) = 0).
  { rewrite distance_array_size. unfold positions. rewrite !length_map.
    destruct Hg as [-> | ->]; simpl; lia. }
  pose proof (filter_length_le (fun d => ltb d thr)
                (concat (distance_array distance (positions g1 ts)
                           (positions g2 ts) (dimensions ts)))).
  lia.
Qed.

(** C3, as amended.  When either selection resolves to zero atoms (and
    both selection strings parse) the contact counter does not fail: it
    returns one record per frame, in frame order, each with count 0. *)
Theorem empty_selection_counts_zero (ag1 ag2 top trj : string) (thr : T)
    (univ : universe T Pos Box) (g1 g2 : list nat) :
  open_universe top trj = Ok univ ->
  select_atoms univ ag1 = Ok g1 -> select_atoms univ ag2 = Ok g2 ->
  g1 = [] \/ g2 = [] ->
  analyze_vdw_contacts distance open_universe select_atoms ag1 ag2 thr top trj
  = Ok (map (fun ts => (time ts, 0)) (trajectory univ)).
Proof.
  intros Eu E1 E2 Hg. rewrite (analyze_records _ _ _ _ _ _ _ _ Eu E1 E2).
  f_equal. apply map_ext. intros ts. rewrite no_atoms_no_contacts by exact Hg.
  reflexivity.
Qed.

(** C4.  For every trajectory the contact counter emits exactly one
    (time, count) record per frame, in frame order; the count of a frame
    is the number of entries of its inter-group distance matrix strictly
    below the threshold, and a frame with no such entry has the record
    with count 0 like any other. *)
Theorem one_record_per_frame (script ag1 ag2 a3 top trj : string) (thr : T)
    (univ : universe T Pos Box) (g1 g2 : list nat) (w : world T) :
  parse_float a3 = Ok thr ->
  open_universe top trj = Ok univ ->
  select_atoms univ ag1 = Ok g1 -> select_atoms univ ag2 = Ok g2 ->
  let records :=
    map (fun ts =>
           (time ts,
            contacts_below thr
              (distance_array distance (positions g1 ts) (positions g2 ts)
                 (dimensions ts))))
        (trajectory univ) in
  analyze_vdw_contacts distance open_universe select_atoms ag1 ag2 thr top trj
    = Ok records /\
  length records = length (trajectory univ) /\
  main distance open_universe select_atoms parse_float
    [script; ag1; ag2; a3; top; trj] w
    = (Ok (), {| files := files w;
                 stdout := stdout w
                           ++ map (fun r => Contact (fst r) (snd r)) records |}).
Proof.
  intros Ef Eu E1 E2 records.
  assert (Er : analyze_vdw_contacts distance open_universe select_atoms
                 ag1 ag2 thr top trj = Ok records).
  { rewrite (analyze_records _ _ _ _ _ _ _ _ Eu E1 E2). f_equal.
    apply map_ext. intros ts. rewrite num_group_counts. reflexivity. }
  split; [exact Er|]. split; [apply length_map|].
  unfold main. cbn [length negb Nat.eqb].
  unfold mbind at 1 2 3 4 5 6 7, io_bind.
  cbn [argv_get lookup list_lookup lift]. rewrite Ef, Er.
  apply print_all_appends.
Qed.

(** C9.  In every frame and for every threshold the emitted count lies
    between 0 and [len(group1) * len(group2)], and it is the raw count of
    entries below the threshold: the guard [if num_group > 0] changes
    nothing. *)
Theorem count_is_raw_and_bounded (g1 g2 : list nat) (thr : T)
    (results : list (T * nat)) (ts : frame T Pos Box) :
  let raw := num_group distance g1 g2 thr ts in
  loop_body distance g1 g2 thr results ts = results ++ [(time ts, raw)] /\
  0 <= raw /\ raw <= length g1 * length g2.
Proof.
  intros raw. split; [apply loop_body_appends|].
  split; [lia | apply num_group_bound].
Qed.

End ContactsClaims.

(** C3, as stated, fails: a well-formed selection that matches no atom does
    not make the contact counter fail with a [SelectionError]; the run
    succeeds and prints one record per frame. *)
Lemma empty_selection_is_not_an_error :
  Scenario.select_atoms Scenario.univ "resname SOL" = Ok [] /\
  Contacts.analyze_vdw_contacts Scenario.distance Scenario.open_universe
    Scenario.select_atoms "resname SOL" "index 1" 3.5%float "run.tpr" "run.xtc"
  = Ok [(0%float, 0); (1%float, 0); (2%float, 0)] /\
  Contacts.main Scenario.distance Scenario.open_universe Scenario.select_atoms
    Scenario.parse_float (Scenario.contacts_argv "resname SOL" "index 1" "3.5")
    Scenario.empty_world
  = (Ok (), {| files := ∅;
               stdout := [Contact 0%float 0; Contact 1%float 0; Contact 2%float 0] |}).
Proof. repeat split; vm_compute; reflexivity. Qed.

Lemma empty_selection_counts_zero_witness :
  Contacts.analyze_vdw_contacts Scenario.distance Scenario.open_universe
    Scenario.select_atoms "index 0" "resname SOL" 3.5%float "run.tpr" "run.xtc"
  = Ok (map (fun ts => (Contacts.time ts, 0)) (Contacts.trajectory Scenario.univ)).
Proof.
  apply (empty_selection_counts_zero Scenario.distance Scenario.open_universe
           Scenario.select_atoms "index 0" "resname SOL" "run.tpr" "run.xtc"
           3.5%float Scenario.univ [0] []).
  - reflexivity.
  - reflexivity.
  - reflexivity.
  - right. reflexivity.
Defined.

(** The two atoms are 3 apart: with threshold 3.5 every frame counts one
    contact, with threshold 2.5 every frame counts none, and says so. *)
Lemma one_record_per_frame_witness :
  Contacts.main Scenario.distance Scenario.open_universe Scenario.select_atoms
    Scenario.parse_float (Scenario.contacts_argv "index 0" "index 1" "2.5")
    Scenario.empty_world
  = (Ok (), {| files := ∅;
               stdout := [Contact 0%float 0; Contact 1%float 0; Contact 2%float 0] |}).
Proof.
  refine (proj2 (proj2
    (one_record_per_frame Scenario.distance Scenario.open_universe
       Scenario.select_atoms Scenario.parse_float
       "py_calc_contact_count.py" "index 0" "index 1" "2.5" "run.tpr" "run.xtc"
       2.5%float Scenario.univ [0] [1] Scenario.empty_world _ _ _ _)));
    reflexivity.
Defined.

Example contact_within_threshold :
  Contacts.analyze_vdw_contacts Scenario.distance Scenario.open_universe
    Scenario.select_atoms "index 0" "index 1" 3.5%float "run.tpr" "run.xtc"
  = Ok [(0%float, 1); (1%float, 1); (2%float, 1)].
Proof. vm_compute. reflexivity. Qed.


(** ** Error atomicity *)

(** C7.  In each of the three scripts a run that fails (a missing or
    unparsable input, a missing argument, a shape or index error, no peak)
    leaves every file as it was: no output file is created or modified. *)
Theorem failures_write_no_file {T : Type} `{Dtype T} `{Sqrt T} :
  (forall argv (w w' : world T) e,
     Combiner.main argv w = (Raise e, w') -> files w' = files w) /\
  (forall argv (w w' : world T) e,
     Work.main argv w = (Raise e, w') -> files w' = files w) /\
  (forall (Pos Box : Type) (distance : Box -> Pos -> Pos -> T)
      open_universe select_atoms parse_float argv (w w' : world T) e,
     Contacts.main distance open_universe select_atoms parse_float argv w
       = (Raise e, w') -> files w' = files w).
Proof.
  split; [|split].
  - intros argv w w' e E. exact (main_atomic argv w e w' E).
  - intros argv w w' e E. exact (work_main_atomic argv w e w' E).
  - intros Pos Box distance open_universe select_atoms parse_float argv w w' e E.
    pose proof (contacts_main_keeps_files distance open_universe select_atoms
                  parse_float argv w) as K.
    rewrite E in K. exact K.
Qed.

(** A denoised force without a prominent peak, and a contact counter called
    with too few arguments: both runs fail, neither touches a file. *)
Lemma failures_write_no_file_witness :
  files (snd (Work.main Scenario.work_argv Scenario.no_peak_run))
    = files Scenario.no_peak_run /\
  files (snd (Contacts.main Scenario.distance Scenario.open_universe
                Scenario.select_atoms Scenario.parse_float
                ["py_calc_contact_count.py"] Scenario.empty_world))
    = files Scenario.empty_world.
Proof.
  split.
  - apply (proj1 (proj2 failures_write_no_file) Scenario.work_argv
             Scenario.no_peak_run _ IndexError).
    vm_compute. reflexivity.
  - apply (proj2 (proj2 failures_write_no_file) float unit Scenario.distance
             Scenario.open_universe Scenario.select_atoms Scenario.parse_float
             ["py_calc_contact_count.py"] Scenario.empty_world _ (SystemExit 1)).
    vm_compute. reflexivity.
Defined.


(** ** Work integrator *)

Section WorkFacts.
Context {T : Type} `{Dtype T}.

Lemma locate_peak_first (gaussian_denoised_data : ndarray T) (x : list T) i :
  col 1 gaussian_denoised_data = Ok x ->
  (exists peaks, Work.locate_peak gaussian_denoised_data = Ok (peaks, i)) <->
  passes_peak_test x (of_Z 30) i = true /\
  forall j, j < i -> passes_peak_test x (of_Z 30) j = false.
Proof.
  intros Ex. rewrite <- first_peak_least.
  unfold Work.locate_peak. rewrite Ex. cbn [mbind result_bind].
  destruct (find_peaks x (of_Z 30) !! 0) as [k|].
  - split; [intros [peaks [= _ ->]]; reflexivity | intros [= ->]; eauto].
  - split; [intros [peaks [=]] | intros [=]].
Qed.

Lemma locate_peak_none (gaussian_denoised_data : ndarray T) (x : list T) :
  col 1 gaussian_denoised_data = Ok x ->
  (forall i, passes_peak_test x (of_Z 30) i = false) ->
  Work.locate_peak gaussian_denoised_data = Raise IndexError.
Proof.
  intros Ex Hno. apply no_peak in Hno.
  unfold Work.locate_peak. rewrite Ex. cbn [mbind result_bind].
  rewrite Hno. reflexivity.
Qed.

(** Without a peak the script stops at line 40 at the latest, having printed
    nothing and written nothing. *)
Lemma main_without_peak (argv : list string) (w : world T) (f : string)
    (gaussian_denoised_data : ndarray T) :
  argv !! 1 = Some f ->
  loadtxt f w = (Ok gaussian_denoised_data, w) ->
  Work.locate_peak gaussian_denoised_data = Raise IndexError ->
  exists e, Work.main argv w = (Raise e, w).
Proof.
  intros Ea El Ep. unfold Work.main, mbind at 1 2 3 4 5 6 7, io_bind.
  unfold argv_get at 1. rewrite Ea. cbn [lift]. rewrite El.
  unfold argv_get, lift, loadtxt.
  destruct (argv !! 2) as [a2|]; [|eauto].
  destruct (match files w !! a2 with Some f0 => parse f0 | None => _ end)
    as [force_data|]; [|eauto].
  destruct (argv !! 3) as [a3|]; [|eauto].
  destruct (match files w !! a3 with Some f0 => parse f0 | None => _ end)
    as [position_data|]; [|eauto].
  unfold Work.extract. rewrite Ep. cbn [mbind result_bind]. eauto.
Qed.

(** What the script takes for the raw peak, in general: the position of the
    maximum among all entries of the force table, times and forces alike,
    counted row by row. *)
Lemma raw_peak_index_spec (gaussian_denoised_data force_data position_data : ndarray T)
    (v : Work.vars) :
  Work.extract gaussian_denoised_data force_data position_data = Ok v ->
  argmax_list (ravel force_data) = Ok (Work.raw_peak_index v) /\
  slice_col (Work.raw_peak_index v) 1 force_data = Ok (Work.force_up_to_max v).
Proof.
  unfold Work.extract. intros E.
  apply bind_Ok in E as (p & _ & E).
  apply bind_Ok in E as (k & Ek & E).
  apply bind_Ok in E as (f & Ef & E).
  apply bind_Ok in E as (g1 & _ & E).
  apply bind_Ok in E as (g2 & _ & E).
  apply bind_Ok in E as (sp & _ & E).
  injection E as <-. cbn [Work.raw_peak_index Work.force_up_to_max]. auto.
Qed.

End WorkFacts.




(** C1 (the script departs from the claim).  The claim takes
    [raw_peak_index] for the index of the global maximum of the raw force
    column, and the raw force handed to the integration for that column up
    to it.  Line 43 calls [np.argmax] on the whole two-column force table,
    which NumPy flattens row by row.  In the sample table the largest force,
    5, stands in row 1; among the flattened entries it has index 3, so three
    samples of force are kept, the maximum and the one after it among them,
    where the claim keeps one. *)
Theorem raw_peak_index_is_counted_over_all_entries :
  (col 1 (Arr2 Scenario.force) ≫= argmax_list) = Ok 1 /\
  slice_col 1 1 (Arr2 Scenario.force) = Ok [1%float] /\
  Work.extract (Arr2 Scenario.gd) (Arr2 Scenario.force) (Arr2 Scenario.position)
  = Ok {| Work.peak_indices := [2];
          Work.max_force_index := 2;
          Work.raw_peak_index := 3;
          Work.force_up_to_max := [1; 5; 3]%float;
          Work.gd_force_up_to_max := [0; 10]%float;
          Work.gd_virtual_positions := [0; 1]%float;
          Work.sim_positions := [0; 1]%float |}.
Proof. repeat split; vm_compute; reflexivity. Qed.

(** ** Quadrature combiner *)

(** C2 (the script departs from the claim).  The claim promises the
    combined table for all input tables of three or more columns and equal
    row count.  [np.loadtxt] returns a one-row file as a 1-D array, on which
    [data1[:, 1]] of line 36 raises [IndexError]: for two valid one-row
    tables the script stops there and writes no output.  With two rows or
    more the claim holds ([main_contract]). *)
Theorem one_row_tables_are_not_combined :
  Combiner.valid_table Scenario.A1 /\ Combiner.valid_table Scenario.B1 /\
  length Scenario.A1 = length Scenario.B1 /\
  Combiner.main Scenario.combiner_argv Scenario.one_row
  = (Raise IndexError, Scenario.one_row).
Proof.
  repeat split; try (vm_compute; reflexivity);
    repeat constructor; simpl; lia.
Qed.

Example two_row_tables_are_combined :
  Combiner.main Scenario.combiner_argv Scenario.two_rows
  = (Ok (),
     {| files := <["out.xvg"%string := Text [[0; 4; 5]; [1; 6; 10]]%float]>
                   (files Scenario.two_rows);
        stdout := [] |}).
Proof. vm_compute. reflexivity. Qed.

(** C6 (the script departs from the claim).  The claim gives column 0 of
    combine(A, B) as column 0 of A for all valid tables of equal row count.
    For the valid one-row tables of C2 there is no combine(A, B), in either
    order: each file loads as a 1-D array and line 36 raises [IndexError],
    so the script writes nothing, and the column 0 that the claim equates
    with [0], the column 0 of A, does not exist. *)
Theorem one_row_tables_have_no_column_0 :
  Combiner.valid_table Scenario.A1 /\ Combiner.valid_table Scenario.B1 /\
  length Scenario.A1 = length Scenario.B1 /\
  column 0 Scenario.A1 = Ok [0%float] /\
  Combiner.combine_files (Text Scenario.A1) (Text Scenario.B1)
    = Raise IndexError /\
  Combiner.combine_files (Text Scenario.B1) (Text Scenario.A1)
    = Raise IndexError /\
  (Combiner.combine_files (Text Scenario.A1) (Text Scenario.B1) ≫= col 0)
    <> column 0 Scenario.A1 /\
  Combiner.main ["add_data_with_error_propagation.py"; "a.xvg"; "b.xvg";
                 "out.xvg"]%string Scenario.one_row
    = (Raise IndexError, Scenario.one_row) /\
  Combiner.main ["add_data_with_error_propagation.py"; "b.xvg"; "a.xvg";
                 "out.xvg"]%string Scenario.one_row
    = (Raise IndexError, Scenario.one_row).
Proof.
  repeat split; try (vm_compute; reflexivity);
    try (repeat constructor; simpl; lia).
  vm_compute. discriminate.
Qed.

(** With two rows or more the claim C6 holds.  For all valid tables A and B
    of equal row count the two orders of combining agree on column 1 and on
    column 2 (both fail alike on fewer than two rows); where an order
    succeeds, and with two rows or more both do, column 0 of its output is
    column 0 of its first argument. *)
Lemma combine_commutes_except_in_column_0 (A B : list (list float)) :
  Combiner.valid_table A -> Combiner.valid_table B -> length A = length B ->
  let ab := Combiner.combine_files (Text A) (Text B) in
  let ba := Combiner.combine_files (Text B) (Text A) in
  (ab ≫= col 1) = (ba ≫= col 1) /\
  (ab ≫= col 2) = (ba ≫= col 2) /\
  (forall out, ab = Ok out -> col 0 out = column 0 A) /\
  (forall out, ba = Ok out -> col 0 out = column 0 B) /\
  (2 <= length A -> is_ok ab = true /\ is_ok ba = true).
Proof.
  intros HA HB Hlen ab ba.
  destruct (Nat.lt_ge_cases (length A) 2) as [Hshort|Hn].
  - assert (Eab : ab = Raise IndexError)
      by (apply combine_files_short; [apply HA | apply HB | exact Hshort]).
    assert (Eba : ba = Raise IndexError)
      by (apply combine_files_short; [apply HB | apply HA | lia]).
    rewrite Eab, Eba.
    repeat split; try reflexivity; try (intros; discriminate); intros; lia.
  - destruct (combine_files_tables A B HA HB Hlen Hn)
      as (o1 & v1 & w1 & u1 & u2 & Hv1 & Hw1 & Hu1 & Hu2 & Eab & _ & C1 & C2 & K).
    destruct (combine_files_tables B A HB HA (eq_sym Hlen) ltac:(lia))
      as (o2 & w1' & v1' & u2' & u1' & Hw1' & Hv1' & Hu2' & Hu1' & Eba & _ & D1 & D2 & K').
    fold ab in Eab. fold ba in Eba. rewrite Eab, Eba.
    assert (v1' = v1) by congruence. assert (w1' = w1) by congruence.
    assert (u1' = u1) by congruence. assert (u2' = u2) by congruence. subst.
    cbn [mbind result_bind col is_ok].
    repeat split.
    + rewrite C1, D1. f_equal. apply zip_with_comm. apply float_add_comm.
    + rewrite C2, D2. f_equal. apply zip_with_comm. apply quadrature_comm.
    + intros out [= <-]. cbn [col]. apply K; lia.
    + intros out [= <-]. cbn [col]. apply K'; lia.
Qed.

(** The two sample tables differ in column 0, and so do the two outputs. *)
Example combine_commutes_on_the_sample_tables :
  let ab := Combiner.combine_files (Text Scenario.A) (Text Scenario.B) in
  let ba := Combiner.combine_files (Text Scenario.B) (Text Scenario.A) in
  ((ab ≫= col 1) = (ba ≫= col 1) /\
   (ab ≫= col 2) = (ba ≫= col 2) /\
   (forall out, ab = Ok out -> col 0 out = column 0 Scenario.A) /\
   (forall out, ba = Ok out -> col 0 out = column 0 Scenario.B) /\
   (2 <= length Scenario.A -> is_ok ab = true /\ is_ok ba = true)) /\
  (ab ≫= col 0) = Ok [0; 1]%float /\ (ba ≫= col 0) = Ok [5; 6]%float.
Proof.
  split.
  - apply (combine_commutes_except_in_column_0 Scenario.A Scenario.B).
    + split; [reflexivity | repeat constructor; simpl; lia].
    + split; [reflexivity | repeat constructor; simpl; lia].
    + reflexivity.
  - split; vm_compute; reflexivity.
Qed.




(** ** The trapezoidal rule *)

Lemma last_default {A} (x : list A) (a L : A) :
  last x = Some L -> List.last x a = L.
Proof.
  induction x as [|b x IH]; [discriminate|].
  destruct x as [|c x]; [intros [= ->]; reflexivity|].
  intros E. apply IH. exact E.
Qed.

(** In exact arithmetic, for every constant force F sampled at positions
    that start at 0 and end at L (as many forces as positions, two samples
    or more), [np.trapz] returns F * L. *)
Lemma trapz_constant_from_zero {T : Type} `{ExactArith T} (F L : T)
    (y x : list T) :
  length y = length x -> 2 <= length x ->
  Forall (fun v => v = F) y ->
  head x = Some (of_Z 0) -> last x = Some L ->
  trapz y x = Ok (mul F L).
Proof.
  intros Hlen _ Hy Hhead Hlast.
  rewrite (trapz_constant F y x (of_Z 0) Hlen Hy Hhead).
  rewrite (last_default x (of_Z 0) L Hlast).
  rewrite sub_zero. reflexivity.
Qed.

(** Force 3 at positions 0, 1/10 and 3/10, in the rationals. *)
Example trapz_constant_from_zero_in_Qc :
  trapz (T:=Qc) [of_Z 3; of_Z 3; of_Z 3]
    [of_Z 0; Q2Qc (1 # 10); Q2Qc (3 # 10)]
  = Ok (mul (of_Z 3) (Q2Qc (3 # 10))).
Proof.
  apply (trapz_constant_from_zero (T:=Qc) (of_Z 3) (Q2Qc (3 # 10))).
  - reflexivity.
  - simpl. lia.
  - repeat constructor.
  - reflexivity.
  - reflexivity.
Qed.

(** On operands of equal length [np.trapz] is the sum of the halved
    products. *)
Lemma trapz_halves {T : Type} `{Dtype T} (y x : list T) :
  length y = length x -> trapz y x = Ok (np_sum (halves y x)).
Proof.
  intros Hlen. unfold trapz, halves, products, pair_sums.
  rewrite broadcast2_same; [reflexivity|].
  rewrite diff_length, length_zip_with, length_drop. lia.
Qed.

Lemma same_values_spec (l : list float) (q : list Qc) :
  same_values l q = true ->
  Forall2 (fun a b => float_value a = Some b) l q.
Proof.
  revert q. induction l as [|a l IH]; intros [|b q] E; try discriminate.
  - constructor.
  - cbn [same_values] in E. apply andb_prop in E as [E1 E2].
    constructor; [|apply IH; exact E2].
    destruct (float_value a) as [v|]; [|discriminate].
    f_equal. apply Qc_is_canon, Qeq_bool_eq. exact E1.
Qed.

Lemma float_value_zero : float_value (of_Z 0) = Some (of_Z 0).
Proof. reflexivity. Qed.

Lemma constant_values (F : float) (vF : Qc) (y : list float) (qy : list Qc) :
  float_value F = Some vF ->
  Forall2 (fun a b => float_value a = Some b) y qy ->
  Forall (fun v => v = F) y -> Forall (fun v => v = vF) qy.
Proof.
  intros EF H2. induction H2 as [|a b y qy Eab _ IH]; intros Hy.
  - constructor.
  - inversion Hy as [|? ? Ea Hy']; subst.
    constructor; [congruence | apply IH; exact Hy'].
Qed.

Lemma last_values (L : float) (x : list float) (qx : list Qc) :
  Forall2 (fun a b => float_value a = Some b) x qx ->
  last x = Some L ->
  exists vL, last qx = Some vL /\ float_value L = Some vL.
Proof.
  induction 1 as [|a b x qx Eab H2 IH]; [discriminate|].
  destruct H2 as [|a' b' x qx Eab' H2].
  - intros [= <-]. exists b. split; [reflexivity | exact Eab].
  - intros E. apply IH. exact E.
Qed.




(** Neither of the two runs is free of rounding: the first overflows, the
    second rounds. *)
Example rounding_is_detected :
  rounding_free [0x1p1023; 0x1p1023; 0x1p1023]%float [0; 0.5; 1]%float = false /\
  rounding_free [51539607552; 51539607552; 51539607552]%float
    [0%float; Scenario.tenth; Scenario.three_tenths] = false.
Proof. split; vm_compute; reflexivity. Qed.

(** * Further properties of the scripts *)

(** ** The combiner beyond its contract *)

Section CombinerEdges.
Context {T : Type} `{Dtype T} `{Sqrt T}.
Import Combiner.

Lemma column_too_narrow (j : nat) (r : list T) (rows : list (list T)) :
  length r <= j -> column j (r :: rows) = Raise IndexError.
Proof.
  intros Hr. cbn [column]. rewrite (lookup_ge_None_2 r j) by lia. reflexivity.
Qed.

Lemma exact_width_ge (m : nat) (rows : list (list T)) :
  Forall (fun r => length r = m) rows -> width_ge m rows.
Proof. intros HF. eapply Forall_impl; [exact HF|]. intros r ->. simpl. lia. Qed.

Lemma width_ge_weaken (m n : nat) (rows : list (list T)) :
  n <= m -> width_ge m rows -> width_ge n rows.
Proof.
  intros Hnm HF. eapply Forall_impl; [exact HF|]. intros r Hr. simpl in *. lia.
Qed.

(** X1.  For two valid tables of equal row count and two rows or more, the
    script succeeds, prints nothing, and changes the output path only.  The
    table [out] it hands to [np.savetxt] has the rows of input 1 with
    column 1 replaced by the sum of the two columns 1 and column 2 by the
    root-sum-square of the two columns 2; every other column is that of
    input 1.  The file holds every value of [out] rounded to the eight
    decimals of ['%16.8f']. *)
Theorem combiner_writes_the_combined_table
    (script file1 file2 output_file : string) (A B : list (list T))
    (w : world T) :
  files w !! file1 = Some (Text A) -> files w !! file2 = Some (Text B) ->
  valid_table A -> valid_table B -> length A = length B -> 2 <= length A ->
  exists out v1 w1 u1 u2,
    column 1 A = Ok v1 /\ column 1 B = Ok w1 /\
    column 2 A = Ok u1 /\ column 2 B = Ok u2 /\
    main [script; file1; file2; output_file] w
      = (Ok (), {| files := <[output_file := Text (map (map printf_8f) out)]>
                              (files w);
                   stdout := stdout w |}) /\
    length out = length A /\
    column 1 out = Ok (zip_with add v1 w1) /\
    column 2 out = Ok (zip_with quadrature u1 u2) /\
    forall j, j <> 1 -> j <> 2 -> column j out = column j A.
Proof.
  intros E1 E2 HA HB Hlen Hn.
  destruct (combine_files_tables A B HA HB Hlen Hn)
    as (out & v1 & w1 & u1 & u2 & ? & ? & ? & ? & Hc & ? & ? & ? & Hj).
  exists out, v1, w1, u1, u2. repeat split; try assumption.
  rewrite (main_runs _ _ _ _ _ _ _ E1 E2), Hc. reflexivity.
Qed.

(** X2.  Two valid tables of two rows or more each and of different row
    counts are not combined: line 36 raises [ValueError] (the columns do not
    broadcast), and nothing is printed or written. *)
Theorem combiner_rejects_unequal_row_counts
    (script file1 file2 output_file : string) (A B : list (list T))
    (w : world T) :
  files w !! file1 = Some (Text A) -> files w !! file2 = Some (Text B) ->
  valid_table A -> valid_table B ->
  2 <= length A -> 2 <= length B -> length A <> length B ->
  main [script; file1; file2; output_file] w = (Raise ValueError, w).
Proof.
  intros E1 E2 HA HB HnA HnB Hne.
  rewrite (main_runs _ _ _ _ _ _ _ E1 E2). unfold combine_files.
  rewrite (parse_table A HA HnA), (parse_table B HB HnB).
  cbn [mbind result_bind]. unfold combine, add_second_columns. cbn [data1 data2 col].
  destruct (column_is_Ok 1 A) as [c1 E1c];
    [apply (width_ge_weaken 3); [lia | apply HA]|].
  destruct (column_is_Ok 1 B) as [c2 E2c];
    [apply (width_ge_weaken 3); [lia | apply HB]|].
  rewrite E1c, E2c. cbn [mbind result_bind].
  apply column_length in E1c. apply column_length in E2c.
  unfold broadcast_to.
  destruct (Nat.eqb_spec (length c2) (length c1)) as [E|_]; [lia|].
  destruct c2 as [|x [|y c2]]; simpl in E2c; try lia; reflexivity.
Qed.

(** X3.  A table of two columns is not enough: when input 1 has exactly two
    columns (and input 2 at least two, with the same two or more rows), line
    36 runs and line 39 raises [IndexError]; nothing is printed or written. *)
Theorem combiner_rejects_two_columns
    (script file1 file2 output_file : string) (A B : list (list T))
    (w : world T) :
  files w !! file1 = Some (Text A) -> files w !! file2 = Some (Text B) ->
  rectangular A = true -> rectangular B = true ->
  Forall (fun r => length r = 2) A -> width_ge 2 B ->
  length A = length B -> 2 <= length A ->
  main [script; file1; file2; output_file] w = (Raise IndexError, w).
Proof.
  intros E1 E2 RA RB HA HB Hlen Hn.
  pose proof (exact_width_ge 2 A HA) as HA2.
  rewrite (main_runs _ _ _ _ _ _ _ E1 E2). unfold combine_files, parse.
  rewrite RA, RB, !squeeze_table by (assumption || lia).
  cbn [mbind result_bind]. unfold combine, add_second_columns. cbn [data1 data2 col].
  destruct (column_is_Ok 1 A HA2) as [c1 E1c].
  destruct (column_is_Ok 1 B HB) as [c2 E2c].
  rewrite E1c, E2c. cbn [mbind result_bind].
  pose proof (column_length _ _ _ E1c) as L1.
  pose proof (column_length _ _ _ E2c) as L2.
  rewrite broadcast_to_same by lia. cbn [mbind result_bind].
  rewrite (set_col_Arr2 1) by (assumption || (rewrite length_zip_with; lia)).
  cbn [mbind result_bind]. unfold combine_uncertainties. cbn [data1 data2 col].
  destruct A as [|r A']; [simpl in Hn; lia|].
  destruct c1 as [|x c1]; [simpl in L1; lia|].
  destruct c2 as [|y c2]; [simpl in L2, Hlen; lia|].
  cbn [zip_with]. rewrite column_too_narrow; [reflexivity|].
  rewrite length_insert. inversion HA; subst. lia.
Qed.

End CombinerEdges.

(** Input 1 holds 0.123456789 and 0.000000001 in column 1, input 2 holds
    zeros there: the file written holds 0.12345679 and 0.00000000. *)
Lemma combiner_writes_the_combined_table_witness :
  let A := [[0.5; Scenario.nine_decimals; 3];
            [1.5; Scenario.billionth; 6]]%float in
  let B := [[7; 0; 4]; [8; 0; 8]]%float in
  let w := {| files := {[ "a.xvg"%string := Text A; "b.xvg"%string := Text B ]};
              stdout := [] |} in
  (exists out,
     Combiner.main Scenario.combiner_argv w
       = (Ok (), {| files := <["out.xvg"%string :=
                                 Text (map (map printf_8f) out)]> (files w);
                    stdout := [] |}) /\
     column 1 out = Ok [Scenario.nine_decimals; Scenario.billionth] /\
     column 2 out = Ok [5; 10]%float) /\
  Combiner.main Scenario.combiner_argv w
    = (Ok (), {| files := <["out.xvg"%string :=
                              Text [[0.5; Scenario.eight_decimals; 5];
                                    [1.5; 0; 10]]%float]>
                            (files w);
                 stdout := [] |}).
Proof.
  intros A B w. split; [|vm_compute; reflexivity].
  destruct (combiner_writes_the_combined_table
              "add_data_with_error_propagation.py" "a.xvg" "b.xvg" "out.xvg"
              A B w)
    as (out & v1 & w1 & u1 & u2 & Hv1 & Hw1 & Hu1 & Hu2 & Hm & _ & C1 & C2 & _).
  - reflexivity.
  - reflexivity.
  - split; [reflexivity | repeat constructor; simpl; lia].
  - split; [reflexivity | repeat constructor; simpl; lia].
  - reflexivity.
  - simpl. lia.
  - exists out. split; [exact Hm|].
    injection Hv1 as <-. injection Hw1 as <-.
    injection Hu1 as <-. injection Hu2 as <-.
    split; [rewrite C1 | rewrite C2]; vm_compute; reflexivity.
Defined.

Lemma combiner_rejects_unequal_row_counts_witness :
  Combiner.main Scenario.combiner_argv
    {| files := {[ "a.xvg"%string := Text Scenario.A;
                   "b.xvg"%string := Text (Scenario.B ++ [[7; 5; 12]%float]) ]};
       stdout := [] |}
  = (Raise ValueError,
     {| files := {[ "a.xvg"%string := Text Scenario.A;
                    "b.xvg"%string := Text (Scenario.B ++ [[7; 5; 12]%float]) ]};
        stdout := [] |}).
Proof.
  apply (combiner_rejects_unequal_row_counts
           "add_data_with_error_propagation.py" "a.xvg" "b.xvg" "out.xvg"
           Scenario.A (Scenario.B ++ [[7; 5; 12]%float])).
  - reflexivity.
  - reflexivity.
  - split; [reflexivity | repeat constructor; simpl; lia].
  - split; [reflexivity | repeat constructor; simpl; lia].
  - simpl. lia.
  - simpl. lia.
  - simpl. lia.
Defined.

Lemma combiner_rejects_two_columns_witness :
  Combiner.main Scenario.combiner_argv
    {| files := {[ "a.xvg"%string := Text Scenario.gd;
                   "b.xvg"%string := Text Scenario.force ]};
       stdout := [] |}
  = (Raise IndexError,
     {| files := {[ "a.xvg"%string := Text Scenario.gd;
                    "b.xvg"%string := Text Scenario.force ]};
        stdout := [] |}).
Proof.
  apply (combiner_rejects_two_columns
           "add_data_with_error_propagation.py" "a.xvg" "b.xvg" "out.xvg"
           Scenario.gd Scenario.force).
  - reflexivity.
  - reflexivity.
  - reflexivity.
  - reflexivity.
  - repeat constructor.
  - repeat constructor.
  - reflexivity.
  - simpl. lia.
Defined.

(** ** The work integrator beyond its peak *)

Section WorkEdges.
Context {T : Type} `{Dtype T}.

(** Everything a successful run of lines 39 to 46 has computed. *)
Lemma extract_Ok (gaussian_denoised_data force_data position_data : ndarray T)
    (v : Work.vars) :
  Work.extract gaussian_denoised_data force_data position_data = Ok v ->
  Work.locate_peak gaussian_denoised_data
    = Ok (Work.peak_indices v, Work.max_force_index v) /\
  argmax force_data = Ok (Work.raw_peak_index v) /\
  slice_col (Work.raw_peak_index v) 1 force_data = Ok (Work.force_up_to_max v) /\
  slice_col (Work.max_force_index v) 1 gaussian_denoised_data
    = Ok (Work.gd_force_up_to_max v) /\
  slice_col (Work.max_force_index v) 0 gaussian_denoised_data
    = Ok (Work.gd_virtual_positions v) /\
  slice_col (Work.max_force_index v) 1 position_data = Ok (Work.sim_positions v).
Proof.
  unfold Work.extract. intros E.
  apply bind_Ok in E as ([peaks i] & Ep & E). cbn [fst snd] in E.
  apply bind_Ok in E as (k & Ek & E).
  apply bind_Ok in E as (f & Ef & E).
  apply bind_Ok in E as (g1 & Eg1 & E).
  apply bind_Ok in E as (g2 & Eg2 & E).
  apply bind_Ok in E as (sp & Esp & E).
  injection E as <-. cbn. auto 10.
Qed.

Lemma locate_peak_Ok (gaussian_denoised_data : ndarray T) (peaks : list nat)
    (i : nat) :
  Work.locate_peak gaussian_denoised_data = Ok (peaks, i) ->
  exists x, col 1 gaussian_denoised_data = Ok x /\
            peaks = find_peaks x (of_Z 30) /\ peaks !! 0 = Some i.
Proof.
  unfold Work.locate_peak. intros E. apply bind_Ok in E as (x & Ex & E).
  exists x. destruct (find_peaks x (of_Z 30) !! 0) as [k|] eqn:Ek; [|discriminate].
  injection E as <- <-. auto.
Qed.

(** Every detected peak is an interior sample. *)
Lemma find_peaks_interior (x : list T) (pmin : T) (i : nat) :
  In i (find_peaks x pmin) -> 1 <= i /\ i + 1 < length x.
Proof.
  intros Hi. apply find_peaks_passes in Hi.
  unfold passes_peak_test in Hi. apply andb_true_iff in Hi as [Hi _].
  apply is_local_maximum_plateau in Hi
    as (l & r & Hl & Hlr & Hr & -> & _).
  split.
  - apply Nat.div_le_lower_bound; lia.
  - assert ((l + r) / 2 <= r); [|lia].
    apply Nat.Div0.div_le_upper_bound. lia.
Qed.

Lemma truncation_lengths
    (gaussian_denoised_data force_data position_data : ndarray T)
    (v : Work.vars) (x : list T) :
  Work.extract gaussian_denoised_data force_data position_data = Ok v ->
  col 1 gaussian_denoised_data = Ok x ->
  length (Work.gd_force_up_to_max v) = Nat.min (Work.max_force_index v) (length x) /\
  length (Work.gd_virtual_positions v) = Nat.min (Work.max_force_index v) (length x).
Proof.
  intros E Ex. apply extract_Ok in E as (_ & _ & _ & Eg1 & Eg2 & _).
  unfold slice_col in Eg1, Eg2. rewrite Ex in Eg1. cbn [mbind result_bind] in Eg1.
  injection Eg1 as Eg1.
  apply bind_Ok in Eg2 as (c0 & Ec0 & Eg2). injection Eg2 as Eg2.
  destruct gaussian_denoised_data as [?|?|rows]; try discriminate.
  cbn [col] in Ex, Ec0.
  apply column_length in Ex. apply column_length in Ec0.
  rewrite <- Eg1, <- Eg2, !length_take. lia.
Qed.

(** X4.  The first prominent peak is an interior sample of the denoised
    force, so the truncated denoised force and position arrays are never
    empty and never clipped: each has exactly [max_force_index] elements,
    and the force array is the denoised force column up to, and without, the
    peak sample. *)
Theorem truncation_stops_before_the_peak
    (gaussian_denoised_data force_data position_data : ndarray T)
    (v : Work.vars) (x : list T) :
  Work.extract gaussian_denoised_data force_data position_data = Ok v ->
  col 1 gaussian_denoised_data = Ok x ->
  1 <= Work.max_force_index v /\
  Work.max_force_index v + 1 < length x /\
  Work.gd_force_up_to_max v = take (Work.max_force_index v) x /\
  length (Work.gd_force_up_to_max v) = Work.max_force_index v /\
  length (Work.gd_virtual_positions v) = Work.max_force_index v.
Proof.
  intros E Ex. apply extract_Ok in E as (Ep & _ & _ & Eg1 & Eg2 & _).
  apply locate_peak_Ok in Ep as (x' & Ex' & Epeaks & Ei).
  assert (x' = x) by congruence. subst x'.
  assert (Hin : In (Work.max_force_index v) (find_peaks x (of_Z 30))).
  { rewrite <- Epeaks. apply list_elem_of_In.
    eapply list_elem_of_lookup_2. exact Ei. }
  apply find_peaks_interior in Hin as [Hlo Hhi].
  unfold slice_col in Eg1, Eg2. rewrite Ex in Eg1. cbn [mbind result_bind] in Eg1.
  injection Eg1 as Eg1.
  apply bind_Ok in Eg2 as (c0 & Ec0 & Eg2). injection Eg2 as Eg2.
  destruct gaussian_denoised_data as [?|?|rows]; try discriminate.
  cbn [col] in Ex, Ec0.
  apply column_length in Ex. apply column_length in Ec0.
  repeat split; try assumption; try (symmetry; assumption).
  - rewrite <- Eg1, length_take. lia.
  - rewrite <- Eg2, length_take. lia.
Qed.

End WorkEdges.

Lemma truncation_stops_before_the_peak_witness :
  exists v,
    Work.extract (Arr2 Scenario.gd) (Arr2 Scenario.force) (Arr2 Scenario.position)
      = Ok v /\
    1 <= Work.max_force_index v /\
    Work.max_force_index v + 1 < 5 /\
    Work.gd_force_up_to_max v
      = take (Work.max_force_index v) [0; 10; 40; 10; 0]%float.
Proof.
  destruct (Work.extract (Arr2 Scenario.gd) (Arr2 Scenario.force)
              (Arr2 Scenario.position)) as [v|e] eqn:E;
    [|vm_compute in E; discriminate E].
  exists v. split; [reflexivity|].
  destruct (truncation_stops_before_the_peak (Arr2 Scenario.gd)
              (Arr2 Scenario.force) (Arr2 Scenario.position) v
              [0; 10; 40; 10; 0]%float E eq_refl) as (H1 & H2 & H3 & _).
  auto.
Defined.

Section WorkFailures.
Context {T : Type} `{Dtype T}.

Lemma find_peaks_short (x : list T) (pmin : T) :
  length x < 3 -> find_peaks x pmin = [].
Proof.
  destruct x as [|a [|b [|c x]]]; simpl; intros Hx; try reflexivity. lia.
Qed.

Lemma col_raises_IndexError (j : nat) (a : ndarray T) (e : exn) :
  col j a = Raise e -> e = IndexError.
Proof.
  destruct a as [?|?|rows]; cbn [col]; try (intros [= <-]; reflexivity).
  induction rows as [|r rows IH]; cbn [column]; [discriminate|].
  destruct (r !! j); [|intros [= <-]; reflexivity].
  destruct (column j rows) as [c|e']; cbn [mbind result_bind]; [discriminate|].
  intros [= <-]. apply IH. reflexivity.
Qed.

Lemma locate_peak_short (gaussian_denoised_data : ndarray T) :
  (forall x, col 1 gaussian_denoised_data = Ok x -> length x < 3) ->
  Work.locate_peak gaussian_denoised_data = Raise IndexError.
Proof.
  intros Hshort. unfold Work.locate_peak.
  destruct (col 1 gaussian_denoised_data) as [x|e] eqn:E; cbn [mbind result_bind].
  - rewrite find_peaks_short by (apply Hshort; reflexivity). reflexivity.
  - apply col_raises_IndexError in E as ->. reflexivity.
Qed.

Lemma squeeze_short (rows : list (list T)) (x : list T) :
  length rows < 3 -> col 1 (squeeze rows) = Ok x -> length x < 3.
Proof.
  intros Hn. destruct rows as [|r [|r' [|r'' rows]]]; simpl in Hn; try lia.
  - discriminate.
  - destruct r as [|a [|b r]]; discriminate.
  - unfold squeeze.
    destruct (forallb _ _); [destruct r as [|a [|b r]]; discriminate|].
    destruct r as [|a [|b r]]; cbn [col]; intros E;
      apply column_length in E; simpl in E; lia.
Qed.

(** X5.  A denoised table of fewer than three rows cannot have a peak: with
    such a file as first argument every run fails, with nothing printed and
    nothing written, whatever the other two files hold. *)
Theorem denoised_table_needs_three_rows (argv : list string) (w : world T)
    (f : string) (rows : list (list T)) :
  argv !! 1 = Some f -> files w !! f = Some (Text rows) -> length rows < 3 ->
  exists e, Work.main argv w = (Raise e, w).
Proof.
  intros Ea Ef Hn.
  destruct (rectangular rows) eqn:R.
  - apply (main_without_peak argv w f (squeeze rows) Ea).
    + unfold loadtxt. rewrite Ef. unfold parse. rewrite R. reflexivity.
    + apply locate_peak_short. intros x. apply squeeze_short. exact Hn.
  - exists ValueError. unfold Work.main, mbind at 1 2, io_bind.
    unfold argv_get at 1. rewrite Ea. cbn [lift].
    unfold loadtxt at 1. rewrite Ef. unfold parse. rewrite R. reflexivity.
Qed.

End WorkFailures.

Lemma denoised_table_needs_three_rows_witness :
  exists e,
    Work.main Scenario.work_argv
      {| files := {[ "gd.xvg"%string := Text [[0; 0]; [1; 40]]%float;
                     "f.xvg"%string := Text Scenario.force;
                     "x.xvg"%string := Text Scenario.position ]};
         stdout := [] |}
    = (Raise e,
       {| files := {[ "gd.xvg"%string := Text [[0; 0]; [1; 40]]%float;
                      "f.xvg"%string := Text Scenario.force;
                      "x.xvg"%string := Text Scenario.position ]};
          stdout := [] |}).
Proof.
  apply (denoised_table_needs_three_rows Scenario.work_argv _ "gd.xvg"%string
           [[0; 0]; [1; 40]]%float).
  - reflexivity.
  - reflexivity.
  - simpl. lia.
Defined.

Section WorkMonotone.
Context {T : Type} `{OrderLaws T}.

(** X6.  A denoised force that never decreases, or never increases, from one
    sample to the next has no peak at all, whatever the prominence asked
    for: lines 39 and 40 raise [IndexError]. *)
Theorem monotone_force_has_no_peak (gaussian_denoised_data : ndarray T)
    (x : list T) :
  col 1 gaussian_denoised_data = Ok x ->
  (forall k, k + 1 < length x -> ltb (get x (k + 1)) (get x k) = false) \/
  (forall k, k + 1 < length x -> ltb (get x k) (get x (k + 1)) = false) ->
  Work.locate_peak gaussian_denoised_data = Raise IndexError.
Proof.
  intros Ex Hmono. apply (locate_peak_none _ x Ex). intros i.
  destruct (passes_peak_test x (of_Z 30) i) eqn:E; [|reflexivity]. exfalso.
  unfold passes_peak_test in E. apply andb_true_iff in E as [E _].
  apply is_local_maximum_plateau in E
    as (l & r & Hl & Hlr & Hr & _ & Hleft & Hflat & Hright).
  destruct Hmono as [Hup|Hdown].
  - assert (Hdrop : ltb (get x (r + 1)) (get x r) = true).
    { destruct (Nat.eq_dec r l) as [->|Hne]; [exact Hright|].
      rewrite (ltb_eqb_r (get x (r + 1)) (get x r) (get x l)); [exact Hright|].
      apply Hflat. lia. }
    rewrite Hup in Hdrop by lia. discriminate.
  - specialize (Hdown (l - 1)). replace (l - 1 + 1) with l in Hdown by lia.
    rewrite Hdown in Hleft by lia. discriminate.
Qed.

End WorkMonotone.

Lemma monotone_force_has_no_peak_witness :
  Work.locate_peak (Arr2 [[0; 0]; [1; 10]; [2; 50]; [3; 50]; [4; 90]]%float)
  = Raise IndexError.
Proof.
  apply (monotone_force_has_no_peak
           (Arr2 [[0; 0]; [1; 10]; [2; 50]; [3; 50]; [4; 90]]%float)
           [0; 10; 50; 50; 90]%float eq_refl).
  left. intros [|[|[|[|k]]]] Hk; try reflexivity. simpl in Hk. lia.
Defined.

Section WorkIntegration.
Context {T : Type} `{Dtype T}.

Lemma diff_intervals (x : list T) : length (diff x) = length x - 1.
Proof. unfold diff. rewrite length_zip_with, length_drop. lia. Qed.

Lemma pair_sums_intervals (y : list T) :
  length (zip_with add (drop 1 y) y) = length y - 1.
Proof. rewrite length_zip_with, length_drop. lia. Qed.

Lemma broadcast2_is_ok (f : T -> T -> T) (a b : list T) :
  is_ok (broadcast2 f a b)
  = Nat.eqb (length a) (length b) || Nat.eqb (length a) 1 || Nat.eqb (length b) 1.
Proof.
  unfold broadcast2. destruct (Nat.eqb (length a) (length b)); [reflexivity|].
  destruct a as [|x [|x' a]], b as [|y [|y' b]]; reflexivity.
Qed.

Lemma broadcast2_raises (f : T -> T -> T) (a b : list T) (e : exn) :
  broadcast2 f a b = Raise e -> e = ValueError.
Proof.
  unfold broadcast2. destruct (Nat.eqb (length a) (length b)); [discriminate|].
  destruct a as [|x [|x' a]], b as [|y [|y' b]]; try discriminate;
    intros [= <-]; reflexivity.
Qed.

(** [np.trapz] fails exactly when the two arrays have different numbers of
    intervals and neither has a single one. *)
Lemma trapz_is_ok (y x : list T) :
  is_ok (trapz y x)
  = Nat.eqb (length x - 1) (length y - 1)
    || Nat.eqb (length x - 1) 1 || Nat.eqb (length y - 1) 1.
Proof.
  unfold trapz.
  rewrite <- (diff_intervals x), <- (pair_sums_intervals y).
  rewrite <- (broadcast2_is_ok mul).
  destruct (broadcast2 mul _ _); reflexivity.
Qed.

Lemma trapz_raises (y x : list T) (e : exn) :
  trapz y x = Raise e -> e = ValueError.
Proof.
  unfold trapz.
  destruct (broadcast2 mul _ _) as [p|e'] eqn:E; cbn [mbind result_bind];
    [discriminate|].
  intros [= <-]. exact (broadcast2_raises _ _ _ _ E).
Qed.

(** X7.  After a successful extraction the integration over the denoised
    positions cannot fail (its two arrays are cut at the same index).  The
    integration over the simulated positions pairs a force cut at the raw
    index with positions cut at the peak index: it fails, with [ValueError],
    exactly when the two have different numbers of intervals and neither has
    a single interval; with a single interval on one side NumPy broadcasts
    and the script goes on. *)
Theorem integration_fails_on_unequal_intervals_only
    (gaussian_denoised_data force_data position_data : ndarray T)
    (v : Work.vars) :
  Work.extract gaussian_denoised_data force_data position_data = Ok v ->
  is_ok (trapz (Work.gd_force_up_to_max v) (Work.gd_virtual_positions v)) = true /\
  is_ok (Work.integrate v)
  = (Nat.eqb (length (Work.sim_positions v) - 1)
       (length (Work.force_up_to_max v) - 1)
     || Nat.eqb (length (Work.sim_positions v) - 1) 1
     || Nat.eqb (length (Work.force_up_to_max v) - 1) 1) /\
  forall e, Work.integrate v = Raise e -> e = ValueError.
Proof.
  intros E.
  assert (Hgd : is_ok (trapz (Work.gd_force_up_to_max v)
                         (Work.gd_virtual_positions v)) = true).
  { pose proof E as E'. apply extract_Ok in E' as (Ep & _ & _ & Eg1 & _).
    apply bind_Ok in Eg1 as (x & Ex & _).
    destruct (truncation_lengths gaussian_denoised_data force_data
                position_data v x E Ex) as [L1 L2].
    rewrite trapz_is_ok, L1, L2, Nat.eqb_refl. reflexivity. }
  split; [exact Hgd|]. unfold Work.integrate. split.
  - rewrite <- trapz_is_ok.
    destruct (trapz (Work.force_up_to_max v) (Work.sim_positions v));
      cbn [mbind result_bind is_ok]; [|reflexivity].
    destruct (trapz (Work.gd_force_up_to_max v) (Work.gd_virtual_positions v));
      [reflexivity | discriminate].
  - intros e.
    destruct (trapz (Work.force_up_to_max v) (Work.sim_positions v)) eqn:E1;
      cbn [mbind result_bind].
    + destruct (trapz (Work.gd_force_up_to_max v) (Work.gd_virtual_positions v));
        [discriminate | discriminate].
    + intros [= <-]. exact (trapz_raises _ _ _ E1).
Qed.

End WorkIntegration.

(** The sample run integrates three forces over two positions: one interval
    against two, which NumPy broadcasts. *)
Lemma integration_fails_on_unequal_intervals_only_witness :
  exists v,
    Work.extract (Arr2 Scenario.gd) (Arr2 Scenario.force) (Arr2 Scenario.position)
      = Ok v /\
    length (Work.force_up_to_max v) = 3 /\ length (Work.sim_positions v) = 2 /\
    is_ok (Work.integrate v) = true.
Proof.
  destruct (Work.extract (Arr2 Scenario.gd) (Arr2 Scenario.force)
              (Arr2 Scenario.position)) as [v|e] eqn:E;
    [|vm_compute in E; discriminate E].
  exists v. split; [reflexivity|].
  destruct (integration_fails_on_unequal_intervals_only _ _ _ v E)
    as (_ & Hok & _).
  vm_compute in E. injection E as <-.
  split; [reflexivity|]. split; [reflexivity|]. rewrite Hok. reflexivity.
Defined.

Section WorkOutputs.
Context {T : Type} `{Dtype T}.

(** X8.  The work over the denoised positions is a function of the denoised
    table alone: two successful runs on the same denoised table give the
    same value, whatever force and position tables they are given. *)
Theorem denoised_work_ignores_the_raw_tables
    (gaussian_denoised_data force_data position_data force_data'
       position_data' : ndarray T) (v v' : Work.vars) (r r' : T * T) :
  Work.extract gaussian_denoised_data force_data position_data = Ok v ->
  Work.integrate v = Ok r ->
  Work.extract gaussian_denoised_data force_data' position_data' = Ok v' ->
  Work.integrate v' = Ok r' ->
  snd r = snd r'.
Proof.
  intros E I E' I'.
  apply extract_Ok in E as (Ep & _ & _ & Eg1 & Eg2 & _).
  apply extract_Ok in E' as (Ep' & _ & _ & Eg1' & Eg2' & _).
  rewrite Ep in Ep'. injection Ep' as _ Ei. rewrite <- Ei in Eg1', Eg2'.
  rewrite Eg1 in Eg1'. rewrite Eg2 in Eg2'.
  injection Eg1' as Eg1'. injection Eg2' as Eg2'.
  unfold Work.integrate in I, I'.
  apply bind_Ok in I as (w1 & _ & I). apply bind_Ok in I as (w2 & Ew2 & I).
  apply bind_Ok in I' as (w1' & _ & I'). apply bind_Ok in I' as (w2' & Ew2' & I').
  injection I as <-. injection I' as <-. cbn [snd].
  rewrite <- Eg1', <- Eg2' in Ew2'. congruence.
Qed.

(** X9.  When the first prominent peak is the second sample of the denoised
    force, a single sample is left to integrate and the work over the
    denoised positions is zero. *)
Theorem peak_at_second_sample_gives_zero_work
    (gaussian_denoised_data force_data position_data : ndarray T)
    (v : Work.vars) :
  Work.extract gaussian_denoised_data force_data position_data = Ok v ->
  Work.max_force_index v = 1 ->
  trapz (Work.gd_force_up_to_max v) (Work.gd_virtual_positions v) = Ok (of_Z 0).
Proof.
  intros E Hi. pose proof E as E'.
  apply extract_Ok in E' as (_ & _ & _ & Eg1 & _).
  apply bind_Ok in Eg1 as (x & Ex & _).
  destruct (truncation_lengths _ _ _ v x E Ex) as [L1 L2].
  rewrite Hi in L1, L2.
  pose proof (Nat.le_min_l 1 (length x)) as Hmin.
  destruct (Work.gd_force_up_to_max v) as [|a [|a' f]];
    destruct (Work.gd_virtual_positions v) as [|b [|b' g]];
    cbn [length] in L1, L2; try lia; reflexivity.
Qed.

End WorkOutputs.

Lemma denoised_work_ignores_the_raw_tables_witness :
  exists v v' r r',
    Work.extract (Arr2 Scenario.gd) (Arr2 Scenario.force) (Arr2 Scenario.position)
      = Ok v /\ Work.integrate v = Ok r /\
    Work.extract (Arr2 Scenario.gd) (Arr2 Scenario.position) (Arr2 Scenario.force)
      = Ok v' /\ Work.integrate v' = Ok r' /\
    snd r = snd r'.
Proof.
  destruct (Work.extract (Arr2 Scenario.gd) (Arr2 Scenario.force)
              (Arr2 Scenario.position)) as [v|e] eqn:Ev;
    [|vm_compute in Ev; discriminate Ev].
  destruct (Work.integrate v) as [r|e] eqn:Ei;
    [|vm_compute in Ev; injection Ev as <-; vm_compute in Ei; discriminate Ei].
  destruct (Work.extract (Arr2 Scenario.gd) (Arr2 Scenario.position)
              (Arr2 Scenario.force)) as [v'|e] eqn:Ev';
    [|vm_compute in Ev'; discriminate Ev'].
  destruct (Work.integrate v') as [r'|e] eqn:Ei';
    [|vm_compute in Ev'; injection Ev' as <-; vm_compute in Ei'; discriminate Ei'].
  exists v, v', r, r'.
  split; [reflexivity|]. split; [exact Ei|].
  split; [reflexivity|]. split; [exact Ei'|].
  exact (denoised_work_ignores_the_raw_tables _ _ _ _ _ v v' r r' Ev Ei Ev' Ei').
Defined.

Lemma peak_at_second_sample_gives_zero_work_witness :
  exists v,
    Work.extract (Arr2 [[0; 0]; [1; 40]; [2; 0]]%float) (Arr2 Scenario.force)
      (Arr2 Scenario.position) = Ok v /\
    trapz (Work.gd_force_up_to_max v) (Work.gd_virtual_positions v)
      = Ok 0%float.
Proof.
  destruct (Work.extract (Arr2 [[0; 0]; [1; 40]; [2; 0]]%float)
              (Arr2 Scenario.force) (Arr2 Scenario.position)) as [v|e] eqn:Ev;
    [|vm_compute in Ev; discriminate Ev].
  exists v. split; [reflexivity|].
  apply (peak_at_second_sample_gives_zero_work _ _ _ v Ev).
  vm_compute in Ev. injection Ev as <-. reflexivity.
Defined.

(** ** The contact counter beyond one frame *)

Section ContactsEdges.
Context {T : Type} `{Dtype T} {Pos Box : Type}.
Variable distance : Box -> Pos -> Pos -> T.
Variable open_universe : string -> string -> result (Contacts.universe T Pos Box).
Variable select_atoms : Contacts.universe T Pos Box -> string -> result (list nat).
Variable parse_float : string -> result T.
Import Contacts.

(** X11.  A run that fails prints no record.  Called with a number of
    arguments other than five, the script prints the usage message and exits
    with code 1, without opening anything; called with five, any failure (a
    threshold that is no number, a universe that does not open, a selection
    that does not parse) leaves standard output and the files untouched:
    records are printed only once every frame has been analysed. *)
Theorem a_failed_count_prints_no_record (argv : list string) (w w' : world T)
    (e : exn) :
  main distance open_universe select_atoms parse_float argv w = (Raise e, w') ->
  (length argv <> 6 /\ e = SystemExit 1 /\
   w' = {| files := files w; stdout := stdout w ++ [Usage] |}) \/
  (length argv = 6 /\ w' = w).
Proof.
  unfold main. destruct (Nat.eqb_spec (length argv) 6) as [Hlen|Hlen]; cbn [negb].
  - intros E. right. split; [exact Hlen|].
    destruct argv as [|a0 [|a1 [|a2 [|a3 [|a4 [|a5 [|a6 argv]]]]]]];
      simpl in Hlen; try lia.
    revert E. unfold mbind at 1 2 3 4 5 6 7, io_bind.
    cbn [argv_get lookup list_lookup lift].
    destruct (parse_float a3) as [thr|e1]; [|intros [= _ <-]; reflexivity].
    destruct (analyze_vdw_contacts _ _ _ _ _ _ _ _) as [results|e2];
      [|intros [= _ <-]; reflexivity].
    rewrite print_all_appends. discriminate.
  - intros E. left. split; [exact Hlen|].
    revert E. unfold mbind, io_bind, print, lift. intros [= <- <-]. auto.
Qed.

#[local] Abbreviation count g1 g2 thr ts := (num_group distance g1 g2 thr ts).

Lemma num_group_cons (a : nat) (g1 g2 : list nat) (thr : T) (ts : frame T Pos Box) :
  count (a :: g1) g2 thr ts
  = length (List.filter (fun d => ltb d thr)
              (map (fun q => distance (dimensions ts) (coords ts a) q)
                 (positions g2 ts)))
    + count g1 g2 thr ts.
Proof.
  rewrite !num_group_counts. unfold contacts_below, distance_array, positions.
  cbn [map concat]. rewrite List.filter_app, length_app. reflexivity.
Qed.

Lemma num_group_nil (g2 : list nat) (thr : T) (ts : frame T Pos Box) :
  count [] g2 thr ts = 0.
Proof. reflexivity. Qed.

Lemma num_group_cons_r (b : nat) (g1 g2 : list nat) (thr : T) (ts : frame T Pos Box) :
  count g1 (b :: g2) thr ts
  = length (List.filter (fun d => ltb d thr)
              (map (fun p => distance (dimensions ts) p (coords ts b))
                 (positions g1 ts)))
    + count g1 g2 thr ts.
Proof.
  induction g1 as [|a g1 IH]; [reflexivity|].
  rewrite !num_group_cons, IH. unfold positions. cbn [map List.filter].
  destruct (ltb _ thr); cbn [length]; lia.
Qed.

(** X12.  Contacts add up over a selection made of two parts, on either
    side: the count for [g1 ++ g1'] against [g2] is the sum of the counts for
    [g1] and for [g1'], and likewise for the second group. *)
Theorem contacts_add_up_over_parts (g1 g1' g2 g2' : list nat) (thr : T)
    (ts : frame T Pos Box) :
  count (g1 ++ g1') g2 thr ts = count g1 g2 thr ts + count g1' g2 thr ts /\
  count g1 (g2 ++ g2') thr ts = count g1 g2 thr ts + count g1 g2' thr ts.
Proof.
  split.
  - induction g1 as [|a g1 IH]; [reflexivity|].
    cbn [app]. rewrite !num_group_cons, IH. lia.
  - induction g1 as [|a g1 IH]; [reflexivity|].
    rewrite !num_group_cons, IH. unfold positions.
    rewrite !map_app, List.filter_app, length_app. lia.
Qed.

(** X13.  When the distance is symmetric, exchanging the two groups does not
    change the count. *)
Theorem contacts_are_symmetric (g1 g2 : list nat) (thr : T)
    (ts : frame T Pos Box) :
  (forall box p q, distance box p q = distance box q p) ->
  count g1 g2 thr ts = count g2 g1 thr ts.
Proof.
  intros Hsym. induction g1 as [|a g1 IH].
  - induction g2 as [|b g2 IH2]; [reflexivity|].
    rewrite num_group_cons, <- IH2. reflexivity.
  - rewrite num_group_cons, num_group_cons_r, IH. f_equal. f_equal. f_equal.
    apply map_ext. intros q. apply Hsym.
Qed.

(** X14.  The count reaches its bounds: when every inter-group distance of
    a frame is below the threshold it is [len(group1) * len(group2)], when
    none is it is 0. *)
Theorem contacts_reach_their_bounds (g1 g2 : list nat) (thr : T)
    (ts : frame T Pos Box) :
  ((forall i j, In i g1 -> In j g2 ->
      ltb (distance (dimensions ts) (coords ts i) (coords ts j)) thr = true) ->
   count g1 g2 thr ts = length g1 * length g2) /\
  ((forall i j, In i g1 -> In j g2 ->
      ltb (distance (dimensions ts) (coords ts i) (coords ts j)) thr = false) ->
   count g1 g2 thr ts = 0).
Proof.
  split; intros Hall; induction g1 as [|a g1 IH]; try reflexivity;
    rewrite num_group_cons, IH by (intros i j Hi Hj; apply Hall; [right|]; assumption);
    unfold positions; rewrite map_map.
  - cbn [length Nat.mul]. f_equal.
    assert (Hrow : forall j, In j g2 ->
              ltb (distance (dimensions ts) (coords ts a) (coords ts j)) thr = true)
      by (intros j Hj; apply Hall; [left; reflexivity | exact Hj]).
    clear -Hrow. induction g2 as [|b g2 IH]; [reflexivity|].
    cbn [map List.filter]. rewrite Hrow by (left; reflexivity).
    cbn [length]. f_equal. apply IH. intros j Hj. apply Hrow. right. exact Hj.
  - rewrite Nat.add_0_r.
    assert (Hrow : forall j, In j g2 ->
              ltb (distance (dimensions ts) (coords ts a) (coords ts j)) thr = false)
      by (intros j Hj; apply Hall; [left; reflexivity | exact Hj]).
    clear -Hrow. induction g2 as [|b g2 IH]; [reflexivity|].
    cbn [map List.filter]. rewrite Hrow by (left; reflexivity).
    apply IH. intros j Hj. apply Hrow. right. exact Hj.
Qed.

End ContactsEdges.

(** A threshold that is no number: the run fails before the universe is
    opened and prints nothing. *)
Lemma a_failed_count_prints_no_record_witness :
  (length (Scenario.contacts_argv "index 0" "index 1" "near") <> 6 /\
   ValueError = SystemExit 1 /\
   Scenario.empty_world
   = {| files := files Scenario.empty_world;
        stdout := stdout Scenario.empty_world ++ [Usage] |}) \/
  (length (Scenario.contacts_argv "index 0" "index 1" "near") = 6 /\
   Scenario.empty_world = Scenario.empty_world).
Proof.
  apply (a_failed_count_prints_no_record Scenario.distance Scenario.open_universe
           Scenario.select_atoms Scenario.parse_float
           (Scenario.contacts_argv "index 0" "index 1" "near")
           Scenario.empty_world Scenario.empty_world ValueError).
  vm_compute. reflexivity.
Defined.

(** Atoms on a line at 0, 1, 2, ..., with the distance of two positions the
    absolute value of their difference. *)
Lemma contacts_are_symmetric_witness :
  Contacts.num_group
    (fun (_ : unit) (p q : Z) => float_of_Z (Z.abs (p - q)))
    [0; 1] [2; 3; 5] 2.5%float
    {| Contacts.time := 0%float; Contacts.coords := Z.of_nat;
       Contacts.dimensions := () |}
  = Contacts.num_group
      (fun (_ : unit) (p q : Z) => float_of_Z (Z.abs (p - q)))
      [2; 3; 5] [0; 1] 2.5%float
      {| Contacts.time := 0%float; Contacts.coords := Z.of_nat;
         Contacts.dimensions := () |}.
Proof.
  apply (contacts_are_symmetric
           (fun (_ : unit) (p q : Z) => float_of_Z (Z.abs (p - q)))).
  intros box p q. f_equal. lia.
Defined.

Lemma contacts_reach_their_bounds_witness :
  Contacts.num_group Scenario.distance [0] [1] 3.5%float (Scenario.still 0%float)
    = length [0] * length [1] /\
  Contacts.num_group Scenario.distance [0] [1] 2.5%float (Scenario.still 0%float)
    = 0.
Proof.
  split.
  - apply (proj1 (contacts_reach_their_bounds Scenario.distance [0] [1]
                    3.5%float (Scenario.still 0%float))).
    intros i j [<-|[]] [<-|[]]. vm_compute. reflexivity.
  - apply (proj2 (contacts_reach_their_bounds Scenario.distance [0] [1]
                    2.5%float (Scenario.still 0%float))).
    intros i j [<-|[]] [<-|[]]. vm_compute. reflexivity.
Defined.

